(** * Deploy-Merged: the incident store of the emergency dashboard

    A shallow embedding of
    - [src/contexts/EmergencyContext.tsx] (the provider that owns the
      incident collection, the activity log and the notifications),
    - the ranking of [src/components/dashboard/IncidentTable.tsx],
    - the selection list of the incident detail panel,
    - the report schema and the [POST /] route of the backend,
    together with the properties the specification states about them. *)

From Stdlib Require Import ZArith.
From stdpp Require Import base decidable option list strings pretty sorting gmap.

Local Open Scope Z_scope.
Local Open Scope string_scope.

(** ** Data model *)

(** The string unions of [@/types/emergency], as the sources spell them. *)
Inductive IncidentStatus :=
  | UNVERIFIED | VERIFIED | ASSIGNED | IN_PROGRESS | RESOLVED | DUPLICATE | FALSE.

Inductive IncidentSeverity := LOW | MEDIUM | HIGH | CRITICAL.

Inductive IncidentType := FIRE | MEDICAL | ACCIDENT | INFRASTRUCTURE | CRIME.

Global Instance IncidentStatus_eq_dec : EqDecision IncidentStatus.
Proof. solve_decision. Defined.
Global Instance IncidentSeverity_eq_dec : EqDecision IncidentSeverity.
Proof. solve_decision. Defined.
Global Instance IncidentType_eq_dec : EqDecision IncidentType.
Proof. solve_decision. Defined.

(** What a template literal prints for a status or a severity: the
    literal itself. *)
Definition status_string (s : IncidentStatus) : string :=
  match s with
  | UNVERIFIED => "UNVERIFIED" | VERIFIED => "VERIFIED" | ASSIGNED => "ASSIGNED"
  | IN_PROGRESS => "IN_PROGRESS" | RESOLVED => "RESOLVED"
  | DUPLICATE => "DUPLICATE" | FALSE => "FALSE"
  end.

Definition severity_string (s : IncidentSeverity) : string :=
  match s with
  | LOW => "LOW" | MEDIUM => "MEDIUM" | HIGH => "HIGH" | CRITICAL => "CRITICAL"
  end.

(** Dates are their [getTime()] value, milliseconds as an integer. *)
Definition Date := Z.

Module Incident.
(** Modelled from the spec: the [Incident] interface of
    [@/types/emergency] is not among the sources.  The fields are the
    ones the sources read or write ([location] keeps its textual part;
    the coordinates and the media list are never touched by the
    operations below).  [priority] and [upvotes] are JavaScript numbers
    holding integers. *)
Record t := mk {
  id : string;
  type : IncidentType;
  severity : IncidentSeverity;
  status : IncidentStatus;
  title : string;
  description : string;
  area : string;
  createdAt : Date;
  updatedAt : Date;
  upvotes : Z;
  priority : Z;
  reporterId : option string;
  verifiedAt : option Date;
  verifiedBy : option string;
  duplicateOf : option string
}.

(** Object spreads [{ ...inc, field: v }], one setter per overwritten
    field. *)
Definition set_status (s : IncidentStatus) (i : t) : t :=
  mk (id i) (type i) (severity i) s (title i) (description i) (area i)
     (createdAt i) (updatedAt i) (upvotes i) (priority i) (reporterId i)
     (verifiedAt i) (verifiedBy i) (duplicateOf i).
Definition set_severity (s : IncidentSeverity) (i : t) : t :=
  mk (id i) (type i) s (status i) (title i) (description i) (area i)
     (createdAt i) (updatedAt i) (upvotes i) (priority i) (reporterId i)
     (verifiedAt i) (verifiedBy i) (duplicateOf i).
Definition set_updatedAt (d : Date) (i : t) : t :=
  mk (id i) (type i) (severity i) (status i) (title i) (description i) (area i)
     (createdAt i) d (upvotes i) (priority i) (reporterId i)
     (verifiedAt i) (verifiedBy i) (duplicateOf i).
Definition set_verifiedAt (d : Date) (i : t) : t :=
  mk (id i) (type i) (severity i) (status i) (title i) (description i) (area i)
     (createdAt i) (updatedAt i) (upvotes i) (priority i) (reporterId i)
     (Some d) (verifiedBy i) (duplicateOf i).
Definition set_verifiedBy (u : string) (i : t) : t :=
  mk (id i) (type i) (severity i) (status i) (title i) (description i) (area i)
     (createdAt i) (updatedAt i) (upvotes i) (priority i) (reporterId i)
     (verifiedAt i) (Some u) (duplicateOf i).
Definition set_duplicateOf (o : string) (i : t) : t :=
  mk (id i) (type i) (severity i) (status i) (title i) (description i) (area i)
     (createdAt i) (updatedAt i) (upvotes i) (priority i) (reporterId i)
     (verifiedAt i) (verifiedBy i) (Some o).
Definition set_upvotes (n : Z) (i : t) : t :=
  mk (id i) (type i) (severity i) (status i) (title i) (description i) (area i)
     (createdAt i) (updatedAt i) n (priority i) (reporterId i)
     (verifiedAt i) (verifiedBy i) (duplicateOf i).
End Incident.

Module ActivityLog.
(** The fields of the object literal that [addLog] builds. *)
Record t := mk {
  id : string;
  incidentId : string;
  action : string;
  details : string;
  userId : string;
  userName : string;
  timestamp : Date
}.
End ActivityLog.

Module Notification.
(** The fields the navigation bar reads of a notification. *)
Record t := mk {
  id : string;
  title : string;
  message : string;
  createdAt : Date;
  read : bool
}.

Definition set_read (b : bool) (n : t) : t :=
  mk (id n) (title n) (message n) (createdAt n) b.
End Notification.

Module AdminNote.
(** The fields of the object literal that [addAdminNote] builds. *)
Record t := mk {
  id : string;
  incidentId : string;
  content : string;
  authorId : string;
  authorName : string;
  createdAt : Date
}.
End AdminNote.

Module DashboardStats.
(** The four aggregates the dashboard's stat cards show. *)
Record t := mk {
  totalActive : Z;
  unverified : Z;
  verifiedInProgress : Z;
  resolvedToday : Z
}.
End DashboardStats.

(** ** The provider's state

    One cell per [useState] of [EmergencyProvider].  ([selectedIncident]
    and [isSystemOnline] play no part in the operations below and are left
    out.) *)
Record State := mkState {
  incidents : list Incident.t;
  activityLogs : list ActivityLog.t;
  notifications : list Notification.t;
  adminNotes : list AdminNote.t;
  dashboardStats : DashboardStats.t;
  isLiveUpdates : bool
}.

(** ** Commands

    Every callback of the provider has type [(...) => void].  A command is
    run at an instant [now] (what [new Date()] and [Date.now()] read during
    the call) on the current state; it ends by returning or by throwing. *)
Inductive ErrorKind :=
  | NotFoundError | ValidationError | InvalidTransitionError
  | PermissionError | PersistenceError.

Inductive Outcome (A : Type) :=
  | Returns (a : A)
  | Throws (e : ErrorKind).
Arguments Returns {A} a.
Arguments Throws {A} e.

Definition Cmd (A : Type) : Type := Date → State → Outcome A * State.

Global Instance Cmd_ret : MRet Cmd := λ A a _ st, (Returns a, st).
Global Instance Cmd_bind : MBind Cmd := λ A B f m now st,
  match m now st with
  | (Returns a, st') => f a now st'
  | (Throws e, st') => (Throws e, st')
  end.

(** [new Date()] *)
Definition newDate : Cmd Date := λ now st, (Returns now, st).

(** The state setters, called with an updater function. *)
Definition setIncidents (f : list Incident.t → list Incident.t) : Cmd () :=
  λ _ st, (Returns (),
           mkState (f (incidents st)) (activityLogs st) (notifications st)
                   (adminNotes st) (dashboardStats st) (isLiveUpdates st)).
Definition setActivityLogs (f : list ActivityLog.t → list ActivityLog.t) : Cmd () :=
  λ _ st, (Returns (),
           mkState (incidents st) (f (activityLogs st)) (notifications st)
                   (adminNotes st) (dashboardStats st) (isLiveUpdates st)).
Definition setNotifications (f : list Notification.t → list Notification.t) : Cmd () :=
  λ _ st, (Returns (),
           mkState (incidents st) (activityLogs st) (f (notifications st))
                   (adminNotes st) (dashboardStats st) (isLiveUpdates st)).
Definition setAdminNotes (f : list AdminNote.t → list AdminNote.t) : Cmd () :=
  λ _ st, (Returns (),
           mkState (incidents st) (activityLogs st) (notifications st)
                   (f (adminNotes st)) (dashboardStats st) (isLiveUpdates st)).
Definition setIsLiveUpdates (f : bool → bool) : Cmd () :=
  λ _ st, (Returns (),
           mkState (incidents st) (activityLogs st) (notifications st)
                   (adminNotes st) (dashboardStats st) (f (isLiveUpdates st))).

(** ** The operations of [EmergencyProvider] *)

Definition addLog (incidentId action details : string) : Cmd () :=
  now ← newDate;
  let newLog := ActivityLog.mk ("log-" +:+ pretty now) incidentId action details
                               "admin-001" "John Commander" now in
  setActivityLogs (λ prev, newLog :: prev).

Definition updateIncidentStatus (id : string) (status : IncidentStatus) : Cmd () :=
  now ← newDate;
  setIncidents (λ prev, (λ inc,
    if decide (Incident.id inc = id)
    then Incident.set_updatedAt now (Incident.set_status status inc)
    else inc) <$> prev);;
  addLog id "STATUS_CHANGED" ("Status changed to " +:+ status_string status).

Definition updateIncidentSeverity (id : string) (severity : IncidentSeverity) : Cmd () :=
  now ← newDate;
  setIncidents (λ prev, (λ inc,
    if decide (Incident.id inc = id)
    then Incident.set_updatedAt now (Incident.set_severity severity inc)
    else inc) <$> prev);;
  addLog id "SEVERITY_CHANGED" ("Severity updated to " +:+ severity_string severity).

Definition verifyIncident (id : string) : Cmd () :=
  now ← newDate;
  setIncidents (λ prev, (λ inc,
    if decide (Incident.id inc = id)
    then Incident.set_updatedAt now
           (Incident.set_verifiedBy "admin-001"
              (Incident.set_verifiedAt now
                 (Incident.set_status VERIFIED inc)))
    else inc) <$> prev);;
  addLog id "VERIFIED" "Incident verified by admin".

Definition markAsFalse (id reason : string) : Cmd () :=
  now ← newDate;
  setIncidents (λ prev, (λ inc,
    if decide (Incident.id inc = id)
    then Incident.set_updatedAt now (Incident.set_status FALSE inc)
    else inc) <$> prev);;
  addLog id "MARKED_FALSE" ("Marked as false report: " +:+ reason).

Definition markAsDuplicate (id originalId : string) : Cmd () :=
  now ← newDate;
  setIncidents (λ prev, (λ inc,
    if decide (Incident.id inc = id)
    then Incident.set_updatedAt now
           (Incident.set_duplicateOf originalId
              (Incident.set_status DUPLICATE inc))
    else inc) <$> prev);;
  addLog id "MARKED_DUPLICATE" ("Marked as duplicate of " +:+ originalId).

Definition addAdminNote (incidentId content : string) : Cmd () :=
  now ← newDate;
  let newNote := AdminNote.mk ("note-" +:+ pretty now) incidentId content
                              "admin-001" "John Commander" now in
  setAdminNotes (λ prev, newNote :: prev);;
  addLog incidentId "NOTE_ADDED" "Admin note added".

Definition toggleLiveUpdates : Cmd () :=
  setIsLiveUpdates negb.

Definition markNotificationRead (id : string) : Cmd () :=
  setNotifications (λ prev, (λ n,
    if decide (Notification.id n = id) then Notification.set_read true n else n)
    <$> prev).

Definition getUnreadNotificationCount (st : State) : nat :=
  length (filter (λ n, Notification.read n = false) (notifications st)).

(** Running a command: its outcome and the state it leaves. *)
Definition outcome {A} (c : Cmd A) (now : Date) (st : State) : Outcome A := (c now st).1.
Definition after {A} (c : Cmd A) (now : Date) (st : State) : State := (c now st).2.

(** The timer of the provider ("simulate real-time updates"): every ten
    seconds, while live updates are on, each incident that is not RESOLVED
    gets [Math.floor(Math.random() * 2)] more upvotes.  [draws] lists the
    values drawn, one per incident in order (0 where the list runs out). *)
Fixpoint tickUpvotes (draws : list bool) (prev : list Incident.t) : list Incident.t :=
  match prev with
  | [] => []
  | inc :: rest =>
      let r : Z := match draws with true :: _ => 1 | _ => 0 end in
      Incident.set_upvotes
        (if decide (Incident.status inc ≠ RESOLVED)
         then Incident.upvotes inc + r else Incident.upvotes inc) inc
      :: tickUpvotes (tail draws) rest
  end.

Definition liveTick (draws : list bool) : Cmd () :=
  λ now st, if isLiveUpdates st then setIncidents (tickUpvotes draws) now st
            else (Returns (), st).

(** [refreshData] puts the mock collections back; [@/data/mockData] is not
    among the sources, so the collections are arguments. *)
Definition refreshData (mockIncidents : list Incident.t)
    (mockActivityLogs : list ActivityLog.t) : Cmd () :=
  setIncidents (λ _, mockIncidents);;
  setActivityLogs (λ _, mockActivityLogs).

(** ** The shape of an edit: one incident id, one log entry *)

Definition onId (id : string) (f : Incident.t → Incident.t) (inc : Incident.t) : Incident.t :=
  if decide (Incident.id inc = id) then f inc else inc.

Definition logEntry (now : Date) (incidentId action details : string) : ActivityLog.t :=
  ActivityLog.mk ("log-" +:+ pretty now) incidentId action details
                 "admin-001" "John Commander" now.

Definition edited (st : State) (f : Incident.t → Incident.t) (id : string)
    (entry : ActivityLog.t) : State :=
  mkState (onId id f <$> incidents st) (entry :: activityLogs st)
          (notifications st) (adminNotes st) (dashboardStats st) (isLiveUpdates st).

(** ** The incident detail panel

    The panel is the caller of the operations above; what it offers and
    what it disables decides which calls are made. *)

(** The statuses of the panel's status selector. *)
Definition statusOptions : list IncidentStatus :=
  [UNVERIFIED; VERIFIED; ASSIGNED; IN_PROGRESS; RESOLVED].

(** The originals listed by the "Mark as Duplicate" dialog for the
    incident shown. *)
Definition duplicateOptions (incidents : list Incident.t) (incident : Incident.t)
    : list Incident.t :=
  filter (λ i, Incident.id i ≠ Incident.id incident
               ∧ Incident.status i ≠ DUPLICATE
               ∧ Incident.status i ≠ FALSE) incidents.

Section Panel.
(** [String.prototype.trim] *)
Variable trim : string → string.

(** The Confirm button of the false-report dialog carries
    [disabled={!falseReason.trim()}]; a disabled button does not run
    [handleMarkFalse]. *)
Definition confirmMarkFalse (incident : Incident.t) (falseReason : string) : Cmd () :=
  if decide (trim falseReason = "") then mret ()
  else markAsFalse (Incident.id incident) falseReason.

(** The Confirm button of the duplicate dialog carries
    [disabled={!duplicateId}]. *)
Definition confirmMarkDuplicate (incident : Incident.t) (duplicateId : string) : Cmd () :=
  if decide (duplicateId = "") then mret ()
  else markAsDuplicate (Incident.id incident) duplicateId.
End Panel.

(** [String.prototype.trim] on a string of ASCII characters: the white
    space (TAB, LF, VT, FF, CR, space) at both ends is removed. *)
Fixpoint trimStart (s : string) : string :=
  match s with
  | String c s' => if Ascii.is_space c then trimStart s' else s
  | EmptyString => EmptyString
  end.

Definition asciiTrim (s : string) : string :=
  String.rev (trimStart (String.rev (trimStart s))).

(** ** What the specification says of the operations

    These predicates follow the words of the specification; they are what
    the code is compared with. *)

Definition terminal (s : IncidentStatus) : Prop :=
  s = RESOLVED ∨ s = FALSE ∨ s = DUPLICATE.

(** "fails with InvalidTransitionError and leaves status and severity
    unchanged" *)
Definition spec_rejected_transition (c : Cmd ()) (now : Date) (st : State) : Prop :=
  outcome c now st = Throws InvalidTransitionError
  ∧ Incident.status <$> incidents (after c now st) = Incident.status <$> incidents st
  ∧ Incident.severity <$> incidents (after c now st) = Incident.severity <$> incidents st.

(** [verify(id)] as specified, called by the user [caller]. *)
Definition spec_verify (caller id : string) (now : Date) (st : State) : Prop :=
  match filter (λ inc, Incident.id inc = id) (incidents st) with
  | [] => outcome (verifyIncident id) now st = Throws NotFoundError
  | inc :: _ =>
      if decide (Incident.status inc = UNVERIFIED) then
        outcome (verifyIncident id) now st = Returns ()
        ∧ (∀ inc', inc' ∈ incidents (after (verifyIncident id) now st) →
             Incident.id inc' = id →
             Incident.status inc' = VERIFIED
             ∧ Incident.verifiedAt inc' = Some now
             ∧ Incident.verifiedBy inc' = Some caller)
        ∧ length (activityLogs (after (verifyIncident id) now st))
          = S (length (activityLogs st))
      else outcome (verifyIncident id) now st = Throws InvalidTransitionError
  end.

(** [markAsFalse(id, reason)] with a blank reason, as specified. *)
Definition spec_markAsFalse_blank (id reason : string) (now : Date) (st : State) : Prop :=
  outcome (markAsFalse id reason) now st = Throws ValidationError
  ∧ incidents (after (markAsFalse id reason) now st) = incidents st
  ∧ activityLogs (after (markAsFalse id reason) now st) = activityLogs st.

(** [markAsDuplicate(id, originalId)] as specified. *)
Definition spec_markAsDuplicate (id originalId : string) (now : Date) (st : State) : Prop :=
  if decide (originalId = id) then
    outcome (markAsDuplicate id originalId) now st = Throws ValidationError
  else
    match filter (λ i, Incident.id i = originalId) (incidents st) with
    | [] => outcome (markAsDuplicate id originalId) now st = Throws NotFoundError
    | orig :: _ =>
        if decide (Incident.status orig = FALSE ∨ Incident.status orig = DUPLICATE)
        then outcome (markAsDuplicate id originalId) now st
             = Throws InvalidTransitionError
        else outcome (markAsDuplicate id originalId) now st = Returns ()
             ∧ ∀ inc', inc' ∈ incidents (after (markAsDuplicate id originalId) now st) →
                 Incident.id inc' = id →
                 Incident.status inc' = DUPLICATE
                 ∧ Incident.duplicateOf inc' = Some originalId
    end.

(** ** Sample data for the scenarios *)

Definition report (id : string) (severity : IncidentSeverity) (status : IncidentStatus)
    (priority upvotes : Z) (createdAt : Date) : Incident.t :=
  Incident.mk id FIRE severity status "Smoke reported" "Smoke from a warehouse roof"
              "Harbour" createdAt createdAt upvotes priority None None None None.

Definition noStats : DashboardStats.t := DashboardStats.mk 0 0 0 0.

Definition collection (incs : list Incident.t) : State :=
  mkState incs [] [] [] noStats true.

(** ** The provider as a transition system *)

(** One constructor per way the provider's state changes: the callbacks
    handed to the components, and the timer. *)
Inductive Command :=
  | UpdateIncidentStatus (id : string) (status : IncidentStatus)
  | UpdateIncidentSeverity (id : string) (severity : IncidentSeverity)
  | VerifyIncident (id : string)
  | MarkAsFalse (id reason : string)
  | MarkAsDuplicate (id originalId : string)
  | AddAdminNote (incidentId content : string)
  | ToggleLiveUpdates
  | MarkNotificationRead (id : string)
  | RefreshData
  | LiveTick (draws : list bool).

Section Provider.
(** The exports of [@/data/mockData], which is not among the sources. *)
Variable mockIncidents : list Incident.t.
Variable mockActivityLogs : list ActivityLog.t.
Variable mockNotifications : list Notification.t.
Variable mockAdminNotes : list AdminNote.t.
Variable mockDashboardStats : DashboardStats.t.

(** The initial values of the [useState] cells. *)
Definition initialState : State :=
  mkState mockIncidents mockActivityLogs mockNotifications mockAdminNotes
          mockDashboardStats true.

Definition run (c : Command) : Cmd () :=
  match c with
  | UpdateIncidentStatus id status => updateIncidentStatus id status
  | UpdateIncidentSeverity id severity => updateIncidentSeverity id severity
  | VerifyIncident id => verifyIncident id
  | MarkAsFalse id reason => markAsFalse id reason
  | MarkAsDuplicate id originalId => markAsDuplicate id originalId
  | AddAdminNote incidentId content => addAdminNote incidentId content
  | ToggleLiveUpdates => toggleLiveUpdates
  | MarkNotificationRead id => markNotificationRead id
  | RefreshData => refreshData mockIncidents mockActivityLogs
  | LiveTick draws => liveTick draws
  end.

(** The states the provider can be in. *)
Inductive reachable : State → Prop :=
  | reachable_initial : reachable initialState
  | reachable_run st c now :
      reachable st → reachable (after (run c) now st).
End Provider.

(** ** Duplicates that resolve

    The specification's invariant on DUPLICATE incidents, in its words:
    [duplicateOf] is non-null and references a distinct, existing incident
    whose own status is neither DUPLICATE nor FALSE. *)
Definition duplicate_resolves (incs : list Incident.t) (inc : Incident.t) : Prop :=
  ∃ originalId orig,
    Incident.duplicateOf inc = Some originalId
    ∧ originalId ≠ Incident.id inc
    ∧ orig ∈ incs
    ∧ Incident.id orig = originalId
    ∧ Incident.status orig ≠ DUPLICATE
    ∧ Incident.status orig ≠ FALSE.

Definition duplicates_resolve (incs : list Incident.t) : Prop :=
  ∀ inc, inc ∈ incs → Incident.status inc = DUPLICATE → duplicate_resolves incs inc.

(** [id] is the original of some DUPLICATE incident. *)
Definition referenced (incs : list Incident.t) (id : string) : Prop :=
  ∃ inc, inc ∈ incs ∧ Incident.status inc = DUPLICATE
         ∧ Incident.duplicateOf inc = Some id.

(** The commands as the detail panel issues them on incidents that are not
    the original of a duplicate: a status comes from the status selector,
    the original of a duplicate comes from the dialog's list, and an
    incident that is marked false or duplicate is not itself referenced. *)
Definition keepsDuplicates (st : State) (c : Command) : Prop :=
  match c with
  | UpdateIncidentStatus _ status => status ∈ statusOptions
  | MarkAsFalse id _ => ¬ referenced (incidents st) id
  | MarkAsDuplicate id originalId =>
      ¬ referenced (incidents st) id
      ∧ ∃ incident orig,
          Incident.id incident = id
          ∧ orig ∈ duplicateOptions (incidents st) incident
          ∧ Incident.id orig = originalId
  | _ => True
  end.

Section GuardedProvider.
Variable mockIncidents : list Incident.t.
Variable mockActivityLogs : list ActivityLog.t.
Variable mockNotifications : list Notification.t.
Variable mockAdminNotes : list AdminNote.t.
Variable mockDashboardStats : DashboardStats.t.

Inductive guardedReachable : State → Prop :=
  | guarded_initial :
      guardedReachable (initialState mockIncidents mockActivityLogs
                          mockNotifications mockAdminNotes mockDashboardStats)
  | guarded_run st c now :
      guardedReachable st → keepsDuplicates st c →
      guardedReachable (after (run mockIncidents mockActivityLogs c) now st).
End GuardedProvider.

(** ** Dashboard aggregates, as the specification derives them

    "unverified" recomputed from the incident collection. *)
Definition spec_unverified_count (incs : list Incident.t) : Z :=
  Z.of_nat (length (filter (λ i, Incident.status i = UNVERIFIED) incs)).

Definition spec_unverified_in_sync (st : State) : Prop :=
  DashboardStats.unverified (dashboardStats st) = spec_unverified_count (incidents st).

(** ** The incident table: ranking

    [[...incidents].sort(comparefn)] allocates a new array with the
    elements of [incidents] and sorts that array in place. *)

Section ArraySort.
Context {A : Type}.
Variable comparefn : A → A → Z.

(** [Array.prototype.sort(comparefn)], which ECMAScript requires to be
    stable: [x] is put before [y] when [comparefn(x, y) < 0], after it
    when [comparefn(x, y) > 0], and elements that compare as 0 keep their
    order.  The order in which an engine compares is its own; here each
    element, from the last to the first, is inserted in front of the
    first element it does not have to follow. *)
Fixpoint insertSorted (x : A) (l : list A) : list A :=
  match l with
  | [] => [x]
  | y :: l' =>
      if decide (comparefn x y ≤ 0)%Z then x :: y :: l'
      else y :: insertSorted x l'
  end.

Fixpoint arraySort (l : list A) : list A :=
  match l with
  | [] => []
  | x :: l' => insertSorted x (arraySort l')
  end.
End ArraySort.

(** What the sort guarantees of [x] standing before [y]: [x] does not have
    to follow [y]. *)
Definition notAfter {A : Type} (comparefn : A → A → Z) (x y : A) : Prop :=
  (comparefn x y ≤ 0)%Z.

(** The comparator of [sortedIncidents]. *)
Definition compareIncidents (a b : Incident.t) : Z :=
  if decide (Incident.severity a = CRITICAL ∧ Incident.severity b ≠ CRITICAL) then -1
  else if decide (Incident.severity b = CRITICAL ∧ Incident.severity a ≠ CRITICAL) then 1
  else if decide (Incident.priority a ≠ Incident.priority b)
       then Incident.priority b - Incident.priority a
  else if decide (Incident.upvotes a ≠ Incident.upvotes b)
       then Incident.upvotes b - Incident.upvotes a
  else Incident.createdAt a - Incident.createdAt b.

(** Array references and the heap that holds the arrays. *)
Definition ref := positive.

(** [[...arr]]: a new array with the same elements. *)
Definition spreadCopy (h : gmap ref (list Incident.t)) (arr : ref)
    : option (ref * gmap ref (list Incident.t)) :=
  items ← h !! arr;
  let copy := fresh (dom h) in
  Some (copy, <[copy := items]> h).

(** [arr.sort(comparefn)]: the array is sorted in place and is the
    result. *)
Definition sortInPlace (comparefn : Incident.t → Incident.t → Z)
    (h : gmap ref (list Incident.t)) (arr : ref)
    : option (ref * gmap ref (list Incident.t)) :=
  items ← h !! arr;
  Some (arr, <[arr := arraySort comparefn items]> h).

Definition sortedIncidents (h : gmap ref (list Incident.t)) (incidentsRef : ref)
    : option (ref * gmap ref (list Incident.t)) :=
  '(copy, h1) ← spreadCopy h incidentsRef;
  sortInPlace compareIncidents h1 copy.

(** The ranking in the words of the specification.  [ranksBefore a b]: [a]
    may stand before [b]; [sameRank a b]: the two have equal keys. *)
Definition isCritical (inc : Incident.t) : Prop := Incident.severity inc = CRITICAL.

Definition ranksBefore (a b : Incident.t) : Prop :=
  (isCritical a ∧ ¬ isCritical b)
  ∨ ((isCritical a ↔ isCritical b)
     ∧ ((Incident.priority a > Incident.priority b)%Z
        ∨ (Incident.priority a = Incident.priority b
           ∧ ((Incident.upvotes a > Incident.upvotes b)%Z
              ∨ (Incident.upvotes a = Incident.upvotes b
                 ∧ (Incident.createdAt a ≤ Incident.createdAt b)%Z))))).

Definition sameRank (a b : Incident.t) : Prop :=
  (isCritical a ↔ isCritical b)
  ∧ Incident.priority a = Incident.priority b
  ∧ Incident.upvotes a = Incident.upvotes b
  ∧ Incident.createdAt a = Incident.createdAt b.

Global Instance isCritical_dec inc : Decision (isCritical inc).
Proof. unfold isCritical. apply _. Defined.
Global Instance sameRank_dec a b : Decision (sameRank a b).
Proof. unfold sameRank. apply _. Defined.

(** ** The report store of the backend

    [models/Report.js] and [routes/reportRoutes.js]. *)

(** What the body of a request holds at a path of the schema, seen
    through Mongoose's cast to the path's type: nothing (the key is absent
    or [undefined]), [null], a value of the path's type (the value sent, as
    cast), or a value that cannot be cast (a [CastError]). *)
Inductive Sent (A : Type) :=
  | Absent
  | Null
  | Casts (a : A)
  | CastFails.
Arguments Absent {A}.
Arguments Null {A}.
Arguments Casts {A} a.
Arguments CastFails {A}.

Module ReportPayload.
(** The body of a [POST /] request, one field per path of [reportSchema]
    (the payload fields the specification lists); [lat] and [long] are the
    paths under [location].  [Number] is the type of JavaScript numbers. *)
Record t (Number : Type) := mk {
  type : Sent string;
  description : Sent string;
  lat : Sent Number;
  long : Sent Number;
  timestamp : Sent Date;
  mediaURL : Sent string;
  reportedBy : Sent string;
  severityAI : Sent string;
  status : Sent string;
  assignedTo : Sent string
}.
Global Arguments mk {Number}.
Global Arguments type {Number}.
Global Arguments description {Number}.
Global Arguments lat {Number}.
Global Arguments long {Number}.
Global Arguments timestamp {Number}.
Global Arguments mediaURL {Number}.
Global Arguments reportedBy {Number}.
Global Arguments severityAI {Number}.
Global Arguments status {Number}.
Global Arguments assignedTo {Number}.
End ReportPayload.

Module Report.
(** A document of the model; a path without a value ([undefined] or
    [null]) is [None]. *)
Record t (Number : Type) := mk {
  type : option string;
  description : option string;
  lat : option Number;
  long : option Number;
  timestamp : option Date;
  mediaURL : option string;
  reportedBy : option string;
  severityAI : option string;
  status : option string;
  assignedTo : option string
}.
Global Arguments mk {Number}.
Global Arguments type {Number}.
Global Arguments description {Number}.
Global Arguments lat {Number}.
Global Arguments long {Number}.
Global Arguments timestamp {Number}.
Global Arguments mediaURL {Number}.
Global Arguments reportedBy {Number}.
Global Arguments severityAI {Number}.
Global Arguments status {Number}.
Global Arguments assignedTo {Number}.
End Report.

(** The value a path of the document gets: the value sent, as cast. *)
Definition castValue {A : Type} (v : Sent A) : option A :=
  match v with
  | Casts a => Some a
  | Absent | Null | CastFails => None
  end.

(** The same for a path with a default: the default stands in for an
    absent value only (not for [null]). *)
Definition castOrDefault {A : Type} (d : A) (v : Sent A) : option A :=
  match v with
  | Absent => Some d
  | Casts a => Some a
  | Null | CastFails => None
  end.

Definition castFailed {A : Type} (v : Sent A) : bool :=
  match v with
  | CastFails => true
  | Absent | Null | Casts _ => false
  end.

(** Mongoose's [required] validator on a [String] path: the value passes
    when it is a string of positive length. *)
Definition checkRequired (v : option string) : bool :=
  match v with
  | Some s => negb (bool_decide (s = ""))
  | None => false
  end.

(** The document built from a body: every path is cast, and absent paths
    take their default ([Date.now], ["Pending"], ["Not Assigned"]). *)
Definition hydrate {Number : Type} (body : ReportPayload.t Number) (now : Date)
    : Report.t Number :=
  Report.mk (castValue (ReportPayload.type body))
            (castValue (ReportPayload.description body))
            (castValue (ReportPayload.lat body))
            (castValue (ReportPayload.long body))
            (castOrDefault now (ReportPayload.timestamp body))
            (castValue (ReportPayload.mediaURL body))
            (castValue (ReportPayload.reportedBy body))
            (castValue (ReportPayload.severityAI body))
            (castOrDefault "Pending" (ReportPayload.status body))
            (castOrDefault "Not Assigned" (ReportPayload.assignedTo body)).

(** The paths whose value could not be cast; validation reports each as
    an error of the document. *)
Definition castErrors {Number : Type} (body : ReportPayload.t Number) : list string :=
  ((if castFailed (ReportPayload.type body) then ["type"] else [])
   ++ (if castFailed (ReportPayload.description body) then ["description"] else [])
   ++ (if castFailed (ReportPayload.lat body) then ["location.lat"] else [])
   ++ (if castFailed (ReportPayload.long body) then ["location.long"] else [])
   ++ (if castFailed (ReportPayload.timestamp body) then ["timestamp"] else [])
   ++ (if castFailed (ReportPayload.mediaURL body) then ["mediaURL"] else [])
   ++ (if castFailed (ReportPayload.reportedBy body) then ["reportedBy"] else [])
   ++ (if castFailed (ReportPayload.severityAI body) then ["severityAI"] else [])
   ++ (if castFailed (ReportPayload.status body) then ["status"] else [])
   ++ (if castFailed (ReportPayload.assignedTo body) then ["assignedTo"] else []))%list.

(** The paths declared [required: true] that fail validation. *)
Definition failedPaths {Number : Type} (doc : Report.t Number) : list string :=
  ((if checkRequired (Report.type doc) then [] else ["type"])
   ++ (if checkRequired (Report.description doc) then [] else ["description"]))%list.

(** [Report.create(body)] on the collection [reports]: the document is
    built and validated; with an error of either kind the promise is
    rejected with a ValidationError and nothing is written; otherwise the
    document is written to the store and returned.  [written] tells
    whether the database carries out the write; when it does not, the
    promise is rejected with the database's error.  (The generated [_id]
    is not modelled.) *)
Definition create {Number : Type} (body : ReportPayload.t Number) (now : Date)
    (written : bool) (reports : list (Report.t Number))
    : Outcome (Report.t Number) * list (Report.t Number) :=
  let doc := hydrate body now in
  match (castErrors body ++ failedPaths doc)%list with
  | [] =>
      if written then (Returns doc, (reports ++ [doc])%list)
      else (Throws PersistenceError, reports)
  | _ :: _ => (Throws ValidationError, reports)
  end.

(** The JSON answer of the route; [error] stands for [err.message]. *)
Record Response (Number : Type) := mkResponse {
  statusCode : Z;
  success : bool;
  report_ : option (Report.t Number);
  error : option ErrorKind
}.
Global Arguments mkResponse {Number}.
Global Arguments statusCode {Number}.
Global Arguments success {Number}.
Global Arguments report_ {Number}.
Global Arguments error {Number}.

(** [router.post("/")] *)
Definition postReport {Number : Type} (body : ReportPayload.t Number) (now : Date)
    (written : bool) (reports : list (Report.t Number))
    : Response Number * list (Report.t Number) :=
  match create body now written reports with
  | (Returns doc, reports') => (mkResponse 200 true (Some doc) None, reports')
  | (Throws err, reports') => (mkResponse 500 false None (Some err), reports')
  end.

(** A required path that holds a string of positive length. *)
Definition nonEmpty (v : option string) : Prop := ∃ s, v = Some s ∧ s ≠ "".

(** A body in which every value sent can be cast to the type of its
    path. *)
Definition castable {Number : Type} (body : ReportPayload.t Number) : Prop :=
  ReportPayload.type body ≠ CastFails
  ∧ ReportPayload.description body ≠ CastFails
  ∧ ReportPayload.lat body ≠ CastFails
  ∧ ReportPayload.long body ≠ CastFails
  ∧ ReportPayload.timestamp body ≠ CastFails
  ∧ ReportPayload.mediaURL body ≠ CastFails
  ∧ ReportPayload.reportedBy body ≠ CastFails
  ∧ ReportPayload.severityAI body ≠ CastFails
  ∧ ReportPayload.status body ≠ CastFails
  ∧ ReportPayload.assignedTo body ≠ CastFails.

(** A field that is missing from the payload. *)
Definition missing {A : Type} (v : Sent A) : bool :=
  match v with
  | Absent => true
  | Null | Casts _ | CastFails => false
  end.

(** [create] in the words of the specification: a ValidationError when
    [type] or [description] is missing, and otherwise the stored report
    (on a store that carries out its writes). *)
Definition spec_create {Number : Type} (body : ReportPayload.t Number) (now : Date)
    (reports : list (Report.t Number)) : Prop :=
  if missing (ReportPayload.type body) || missing (ReportPayload.description body)
  then (create body now true reports).1 = Throws ValidationError
  else ∃ doc, (create body now true reports).1 = Returns doc
              ∧ doc ∈ (create body now true reports).2.

(** ** Auxiliary predicates of the proofs *)

(** What such a call leaves behind: no error, the same incidents, one more
    log entry for [id] with the given action. *)
Definition loggedWithoutEffect (c : Cmd ()) (id action : string)
    (now : Date) (st : State) : Prop :=
  outcome c now st = Returns ()
  ∧ incidents (after c now st) = incidents st
  ∧ ∃ entry, activityLogs (after c now st) = entry :: activityLogs st
             ∧ ActivityLog.incidentId entry = id
             ∧ ActivityLog.action entry = action.

Definition markRead (id : string) (n : Notification.t) : Notification.t :=
  if decide (Notification.id n = id) then Notification.set_read true n else n.

(** How a command may relate an incident to its successor without breaking
    the resolution of duplicates: the id stays; a DUPLICATE successor
    either was DUPLICATE with the same original or resolves in the new
    collection; and an original that is referenced keeps a status that is
    neither DUPLICATE nor FALSE. *)
Definition keepsResolution (incs incs' : list Incident.t) (inc inc' : Incident.t) : Prop :=
  Incident.id inc' = Incident.id inc
  ∧ (Incident.status inc' = DUPLICATE →
       (Incident.status inc = DUPLICATE
        ∧ Incident.duplicateOf inc' = Incident.duplicateOf inc)
       ∨ duplicate_resolves incs' inc')
  ∧ (Incident.status inc ≠ DUPLICATE → Incident.status inc ≠ FALSE →
       referenced incs (Incident.id inc) →
       Incident.status inc' ≠ DUPLICATE ∧ Incident.status inc' ≠ FALSE).

(** ** Scenario data *)

Definition inbox : State :=
  mkState [] []
    [Notification.mk "notif-1" "New critical incident" "Fire at the harbour" 100 false;
     Notification.mk "notif-2" "Incident verified" "INC-001 was verified" 200 true]
    [] noStats true.

(** Scenario 5 of the specification: an incident that is RESOLVED. *)
Definition resolvedE : State :=
  collection [report "INC-005" HIGH RESOLVED 70 4 1000].

(** Scenario 1: incident A, UNVERIFIED with severity LOW. *)
Definition unverifiedA : State :=
  collection [report "INC-001" LOW UNVERIFIED 40 1 1000].

(** Scenario 2: incident B, UNVERIFIED. *)
Definition unverifiedB : State :=
  collection [report "INC-002" MEDIUM UNVERIFIED 55 2 1000].

(** Scenario 3: incidents C and D, both UNVERIFIED. *)
Definition incidentC : Incident.t := report "INC-003" HIGH UNVERIFIED 60 5 1000.
Definition incidentD : Incident.t := report "INC-004" HIGH UNVERIFIED 60 2 1500.
Definition unverifiedCD : State := collection [incidentC; incidentD].

(** D after it was marked as a false report. *)
Definition discardedD : State :=
  collection [incidentC; Incident.set_status FALSE incidentD].

(** C marked as a duplicate of D, then D marked as a false report: two
    calls the panel offers on UNVERIFIED incidents. *)
Definition afterDuplicateThenFalse : State :=
  after (run [incidentC; incidentD] [] (MarkAsFalse "INC-004" "prank call")) 3000
    (after (run [incidentC; incidentD] [] (MarkAsDuplicate "INC-003" "INC-004")) 2000
       (initialState [incidentC; incidentD] [] [] [] noStats)).

(** One UNVERIFIED incident, and mock aggregates that agree with it. *)
Definition oneUnverified : State :=
  initialState [report "INC-001" LOW UNVERIFIED 40 1 1000] [] [] []
               (DashboardStats.mk 1 1 0 0).

(** Scenario 4 as an array on the heap. *)
Definition scenario4 : list Incident.t :=
  [report "INC-H" HIGH VERIFIED 50 3 1000;
   report "INC-C" CRITICAL VERIFIED 50 3 1000;
   report "INC-M" MEDIUM VERIFIED 50 3 1000].

Definition tableHeap : gmap ref (list Incident.t) := {[ 1%positive := scenario4 ]}.

(** A report with a description and an empty type. *)
Definition untypedReport : ReportPayload.t Z :=
  ReportPayload.mk (Casts "") (Casts "Smoke from a warehouse roof")
                   Absent Absent Absent Absent (Casts "citizen-17") Absent Absent Absent.

(** A report with both required fields and a timestamp that is no date. *)
Definition undatedReport : ReportPayload.t Z :=
  ReportPayload.mk (Casts "FIRE") (Casts "Smoke from a warehouse roof")
                   Absent Absent CastFails Absent (Casts "citizen-17") Absent Absent Absent.

Definition fireReport : ReportPayload.t Z :=
  ReportPayload.mk (Casts "FIRE") (Casts "Smoke from a warehouse roof")
                   (Casts 12) (Casts 77) Absent Absent
                   (Casts "citizen-17") (Casts "HIGH") Absent Absent.

(** ** The rest of the provider *)

(** The provider's effect "update selected incident when incidents
    change": when an incident is selected, the first incident of the
    collection with its id, if there is one, becomes the selection. *)
Definition syncSelectedIncident (incidents : list Incident.t)
    (selectedIncident : option Incident.t) : option Incident.t :=
  match selectedIncident with
  | Some selected =>
      match list_find (λ i, Incident.id i = Incident.id selected) incidents with
      | Some (_, updated) => Some updated
      | None => Some selected
      end
  | None => None
  end.

(** ** The detail panel: notes *)

(** [incidentNotes]: the notes of the incident shown. *)
Definition incidentNotes (adminNotes : list AdminNote.t) (incident : Incident.t)
    : list AdminNote.t :=
  filter (λ n, AdminNote.incidentId n = Incident.id incident) adminNotes.

(** [handleAddNote], with the note typed so far; [trim] is
    [String.prototype.trim]. *)
Definition handleAddNote (trim : string → string) (incident : Incident.t)
    (newNote : string) : Cmd () :=
  if decide (trim newNote = "") then mret ()
  else addAdminNote (Incident.id incident) newNote.

(** The panel's footer renders the Verify button for an UNVERIFIED
    incident only; confirming its dialog runs [handleVerify], which calls
    [verifyIncident(incident.id)]. *)
Definition panelVerify (incident : Incident.t) : Cmd () :=
  if decide (Incident.status incident = UNVERIFIED)
  then verifyIncident (Incident.id incident)
  else mret ().

(** ** The incident table: selection *)

Definition toggleSelectAll (incidents : list Incident.t) (selectedIds : list string)
    : list string :=
  if decide (length selectedIds = length incidents) then []
  else Incident.id <$> incidents.

Definition toggleSelect (selectedIds : list string) (id : string) : list string :=
  if decide (id ∈ selectedIds) then filter (λ i, i ≠ id) selectedIds
  else (selectedIds ++ [id])%list.

(** The header checkbox:
    [checked={selectedIds.length === incidents.length && incidents.length > 0}]. *)
Definition headerChecked (incidents : list Incident.t) (selectedIds : list string) : bool :=
  bool_decide (length selectedIds = length incidents)
  && bool_decide (0 < length incidents)%nat.

(** ** The critical alert banner *)

Definition criticalIncidents (incidents : list Incident.t) (dismissed : list string)
    : list Incident.t :=
  filter (λ inc, Incident.severity inc = CRITICAL
                 ∧ Incident.status inc ≠ RESOLVED
                 ∧ Incident.status inc ≠ FALSE
                 ∧ Incident.id inc ∉ dismissed) incidents.

(** The alerts rendered: [criticalIncidents.slice(0, 2)] (nothing is
    rendered when there is none). *)
Definition bannerAlerts (incidents : list Incident.t) (dismissed : list string)
    : list Incident.t :=
  take 2 (criticalIncidents incidents dismissed).

(** The X button of an alert: [setDismissed(prev => [...prev, incident.id])]. *)
Definition dismissAlert (dismissed : list string) (incident : Incident.t) : list string :=
  (dismissed ++ [Incident.id incident])%list.

(** ** Authentication *)

Inductive UserRole := ADMIN | RESPONDER.

Global Instance UserRole_eq_dec : EqDecision UserRole.
Proof. solve_decision. Defined.

Module User.
(** Modelled from the spec: the [User] interface of [@/types/emergency] is
    not among the sources; these are the fields [login] overwrites. *)
Record t := mk {
  id : string;
  name : string;
  email : string;
  role : UserRole
}.
End User.

Module Auth.
(** The two [useState] cells of [AuthProvider]. *)
Record t := mk {
  user : option User.t;
  isLoading : bool
}.

(** What [login] resolves to. *)
Record Result := mkResult {
  success : bool;
  error : option string
}.

(** [login], from the call to the settled promise; [mockUser] is the
    export of [@/data/mockData]. *)
Definition login (mockUser : User.t) (email password : string) (st : t) : Result * t :=
  if decide (email = "admin@emergency.gov" ∧ password = "admin123") then
    (mkResult true None, mk (Some mockUser) false)
  else if decide (email = "responder@emergency.gov" ∧ password = "responder123") then
    (mkResult true None,
     mk (Some (User.mk "responder-001" "Alex Responder" "responder@emergency.gov"
                       RESPONDER)) false)
  else
    (mkResult false (Some "Invalid credentials or insufficient permissions"),
     mk (user st) false).

Definition logout (st : t) : t := mk None (isLoading st).

Definition hasRole (st : t) (roles : list UserRole) : bool :=
  match user st with
  | None => false
  | Some u => bool_decide (User.role u ∈ roles)
  end.

Definition isAuthenticated (st : t) : bool :=
  match user st with Some _ => true | None => false end.
End Auth.

Module LoginPage.
(** What a submit leaves on the page: the error shown and the route
    navigated to, if any. *)
Record View := mk {
  error : string;
  navigatedTo : option string
}.

(** [handleSubmit] with the contents of the two inputs. *)
Definition handleSubmit (mockUser : User.t) (email password : string) (auth : Auth.t)
    : View * Auth.t :=
  if decide (email = "" ∨ password = "") then
    (mk "Please enter both email and password" None, auth)
  else
    let '(result, auth') := Auth.login mockUser email password auth in
    if Auth.success result then (mk "" (Some "/dashboard"), auth')
    else
      (mk (match Auth.error result with
           | Some e => if decide (e = "") then "Login failed" else e
           | None => "Login failed"
           end) None,
       auth').
End LoginPage.

(** ** Vocabulary of the provider-wide properties *)

(** The fields of an incident that identify and describe the report. *)
Definition sameIdentity (inc inc' : Incident.t) : Prop :=
  Incident.id inc' = Incident.id inc
  ∧ Incident.type inc' = Incident.type inc
  ∧ Incident.title inc' = Incident.title inc
  ∧ Incident.description inc' = Incident.description inc
  ∧ Incident.area inc' = Incident.area inc
  ∧ Incident.createdAt inc' = Incident.createdAt inc
  ∧ Incident.priority inc' = Incident.priority inc
  ∧ Incident.reporterId inc' = Incident.reporterId inc.

(** The stamps an operation may set: once present, still present. *)
Definition keepsStamps (inc inc' : Incident.t) : Prop :=
  (is_Some (Incident.verifiedAt inc) → is_Some (Incident.verifiedAt inc'))
  ∧ (is_Some (Incident.verifiedBy inc) → is_Some (Incident.verifiedBy inc'))
  ∧ (is_Some (Incident.duplicateOf inc) → is_Some (Incident.duplicateOf inc')).

(** The action a command writes to the activity log, if it writes one. *)
Definition loggedAction (c : Command) : option string :=
  match c with
  | UpdateIncidentStatus _ _ => Some "STATUS_CHANGED"
  | UpdateIncidentSeverity _ _ => Some "SEVERITY_CHANGED"
  | VerifyIncident _ => Some "VERIFIED"
  | MarkAsFalse _ _ => Some "MARKED_FALSE"
  | MarkAsDuplicate _ _ => Some "MARKED_DUPLICATE"
  | AddAdminNote _ _ => Some "NOTE_ADDED"
  | ToggleLiveUpdates | MarkNotificationRead _ | RefreshData | LiveTick _ => None
  end.


(** The commands that change none of the fields the table ranks by. *)
Definition rankNeutral (c : Command) : Prop :=
  match c with
  | UpdateIncidentStatus _ _ | VerifyIncident _ | MarkAsFalse _ _
  | MarkAsDuplicate _ _ | AddAdminNote _ _ | ToggleLiveUpdates
  | MarkNotificationRead _ => True
  | _ => False
  end.

(** More scenario data. *)
Definition resolvedAndFalse : State :=
  mkState [report "INC-010" HIGH RESOLVED 70 4 1000;
           report "INC-011" LOW FALSE 20 6 1100;
           report "INC-012" CRITICAL VERIFIED 90 9 1200] [] [] [] noStats true.

(** The value the timer draws for the incident at position [i]:
    [Math.floor(Math.random() * 2)], read off [draws]. *)
Definition drawnFor (draws : list bool) (i : nat) : Z :=
  match draws !! i with
  | Some true => 1
  | _ => 0
  end.

(** * Properties *)

(** ** Equations of the operations *)

Lemma updateIncidentStatus_eq id status now st :
  updateIncidentStatus id status now st =
  (Returns (),
   edited st (λ inc, Incident.set_updatedAt now (Incident.set_status status inc)) id
     (logEntry now id "STATUS_CHANGED" ("Status changed to " +:+ status_string status))).
Proof. reflexivity. Qed.

Lemma updateIncidentSeverity_eq id severity now st :
  updateIncidentSeverity id severity now st =
  (Returns (),
   edited st (λ inc, Incident.set_updatedAt now (Incident.set_severity severity inc)) id
     (logEntry now id "SEVERITY_CHANGED"
        ("Severity updated to " +:+ severity_string severity))).
Proof. reflexivity. Qed.

Lemma verifyIncident_eq id now st :
  verifyIncident id now st =
  (Returns (),
   edited st (λ inc, Incident.set_updatedAt now
                       (Incident.set_verifiedBy "admin-001"
                          (Incident.set_verifiedAt now
                             (Incident.set_status VERIFIED inc)))) id
     (logEntry now id "VERIFIED" "Incident verified by admin")).
Proof. reflexivity. Qed.

Lemma markAsFalse_eq id reason now st :
  markAsFalse id reason now st =
  (Returns (),
   edited st (λ inc, Incident.set_updatedAt now (Incident.set_status FALSE inc)) id
     (logEntry now id "MARKED_FALSE" ("Marked as false report: " +:+ reason))).
Proof. reflexivity. Qed.

Lemma markAsDuplicate_eq id originalId now st :
  markAsDuplicate id originalId now st =
  (Returns (),
   edited st (λ inc, Incident.set_updatedAt now
                       (Incident.set_duplicateOf originalId
                          (Incident.set_status DUPLICATE inc))) id
     (logEntry now id "MARKED_DUPLICATE" ("Marked as duplicate of " +:+ originalId))).
Proof. reflexivity. Qed.

Lemma onId_unknown id f (l : list Incident.t) :
  (∀ inc, inc ∈ l → Incident.id inc ≠ id) → onId id f <$> l = l.
Proof.
  induction l as [|x l IH]; intros Hl; [done|].
  rewrite fmap_cons. f_equal.
  - unfold onId. destruct (decide (Incident.id x = id)) as [e|]; [|done].
    exfalso. eapply Hl; [left|done].
  - apply IH. intros inc Hin. apply Hl. by right.
Qed.

Lemma onId_lookup id f (l : list Incident.t) i :
  (onId id f <$> l) !! i = onId id f <$> (l !! i).
Proof. apply list_lookup_fmap. Qed.

Lemma Forall2_onId (P : Incident.t → Incident.t → Prop) id f (l : list Incident.t) :
  (∀ inc, P inc (onId id f inc)) → Forall2 P l (onId id f <$> l).
Proof.
  intros HP. apply Forall2_fmap_r, Forall_Forall2_diag, Forall_forall.
  intros inc _. apply HP.
Qed.

(** ** Calls with an id that no incident has *)

Lemma edited_unknown st f id entry :
  (∀ inc, inc ∈ incidents st → Incident.id inc ≠ id) →
  incidents (edited st f id entry) = incidents st.
Proof. intros H. unfold edited; simpl. by apply onId_unknown. Qed.

(** C10. When no incident of the collection has the given id,
    updateIncidentStatus, verifyIncident, markAsFalse and markAsDuplicate
    each return without an error, leave the incident collection exactly as
    it was, and still put one new entry for that id (with the action of the
    call) in front of the activity log. *)
Theorem unknown_id_logged_without_effect
    (st : State) (now : Date) (id : string)
    (status : IncidentStatus) (reason originalId : string) :
  (∀ inc, inc ∈ incidents st → Incident.id inc ≠ id) →
  loggedWithoutEffect (updateIncidentStatus id status) id "STATUS_CHANGED" now st
  ∧ loggedWithoutEffect (verifyIncident id) id "VERIFIED" now st
  ∧ loggedWithoutEffect (markAsFalse id reason) id "MARKED_FALSE" now st
  ∧ loggedWithoutEffect (markAsDuplicate id originalId) id "MARKED_DUPLICATE" now st.
Proof.
  intros Hid. unfold loggedWithoutEffect, outcome, after.
  rewrite updateIncidentStatus_eq, verifyIncident_eq, markAsFalse_eq,
    markAsDuplicate_eq. simpl fst; simpl snd.
  rewrite !edited_unknown by done.
  repeat split; eexists; (split; [reflexivity|split; reflexivity]).
Qed.

Lemma unknown_id_logged_without_effect_witness :
  (∀ inc, inc ∈ incidents (collection [report "INC-001" HIGH UNVERIFIED 80 3 1000])
          → Incident.id inc ≠ "INC-404")
  ∧ loggedWithoutEffect (verifyIncident "INC-404") "INC-404" "VERIFIED" 5000
      (collection [report "INC-001" HIGH UNVERIFIED 80 3 1000]).
Proof.
  assert (H : ∀ inc, inc ∈ incidents (collection [report "INC-001" HIGH UNVERIFIED 80 3 1000])
                     → Incident.id inc ≠ "INC-404").
  { intros inc Hin. apply list_elem_of_singleton in Hin. subst inc. discriminate. }
  split; [exact H|].
  exact (proj1 (proj2 (unknown_id_logged_without_effect
                         (collection [report "INC-001" HIGH UNVERIFIED 80 3 1000])
                         5000 "INC-404" RESOLVED "spam" "INC-001" H))).
Defined.

(** ** Notifications *)

Lemma markNotificationRead_eq id now st :
  markNotificationRead id now st =
  (Returns (),
   mkState (incidents st) (activityLogs st) (markRead id <$> notifications st)
           (adminNotes st) (dashboardStats st) (isLiveUpdates st)).
Proof. reflexivity. Qed.

Lemma markRead_twice id n : markRead id (markRead id n) = markRead id n.
Proof.
  unfold markRead. destruct (decide (Notification.id n = id)) as [e|ne]; simpl.
  - rewrite decide_True by done. reflexivity.
  - rewrite decide_False by done. reflexivity.
Qed.

Lemma markRead_unknown id (l : list Notification.t) :
  (∀ n, n ∈ l → Notification.id n ≠ id) → markRead id <$> l = l.
Proof.
  induction l as [|n l IH]; intros Hl; [done|].
  rewrite fmap_cons. f_equal.
  - unfold markRead. rewrite decide_False; [done|]. apply Hl. left.
  - apply IH. intros m Hm. apply Hl. by right.
Qed.

(** C8. markNotificationRead(id) is idempotent (a second call with the
    same id leaves the state of the first), changes nothing when no
    notification has the id, and relates each notification to its
    successor by: same id, title, message and date, and the read flag is
    true afterwards exactly when it was true before or the id is the one
    given -- a flag can go from false to true and never back. *)
Theorem markNotificationRead_idempotent_one_way
    (st : State) (now now' : Date) (id : string) :
  outcome (markNotificationRead id) now st = Returns ()
  ∧ after (markNotificationRead id) now' (after (markNotificationRead id) now st)
    = after (markNotificationRead id) now st
  ∧ ((∀ n, n ∈ notifications st → Notification.id n ≠ id) →
     after (markNotificationRead id) now st = st)
  ∧ Forall2 (λ n n',
       Notification.id n' = Notification.id n
       ∧ Notification.title n' = Notification.title n
       ∧ Notification.message n' = Notification.message n
       ∧ Notification.createdAt n' = Notification.createdAt n
       ∧ Notification.read n' =
           Notification.read n || bool_decide (Notification.id n = id))
      (notifications st) (notifications (after (markNotificationRead id) now st)).
Proof.
  unfold outcome, after. rewrite !markNotificationRead_eq. simpl.
  split; [reflexivity|]. split; [|split].
  - f_equal. rewrite <- list_fmap_compose. apply list_fmap_ext.
    intros _ n _. apply markRead_twice.
  - intros Hid. rewrite markRead_unknown by done. by destruct st.
  - apply Forall2_fmap_r, Forall_Forall2_diag, Forall_forall. intros n _.
    unfold compose, markRead. destruct (decide (Notification.id n = id)) as [e|ne].
    + rewrite (bool_decide_eq_true_2 _ e), orb_true_r. done.
    + rewrite (bool_decide_eq_false_2 _ ne), orb_false_r. done.
Qed.

Lemma markNotificationRead_idempotent_one_way_witness :
  (∀ n, n ∈ notifications inbox → Notification.id n ≠ "notif-9")
  ∧ after (markNotificationRead "notif-9") 300 inbox = inbox.
Proof.
  assert (H : ∀ n, n ∈ notifications inbox → Notification.id n ≠ "notif-9").
  { intros n Hn. simpl in Hn.
    apply elem_of_cons in Hn as [->|Hn]; [discriminate|].
    apply list_elem_of_singleton in Hn. subst n. discriminate. }
  split; [exact H|].
  exact (proj1 (proj2 (proj2
    (markNotificationRead_idempotent_one_way inbox 300 400 "notif-9"))) H).
Defined.

(** ** Status and severity changes *)

(** C1, as stated, fails: on a RESOLVED incident, a status change and a
    severity change both return without an error, and the status (resp.
    the severity) is the new one. *)
Lemma setStatus_after_resolved_counterexample :
  (∃ inc, inc ∈ incidents resolvedE ∧ Incident.id inc = "INC-005"
          ∧ terminal (Incident.status inc))
  ∧ ¬ spec_rejected_transition (updateIncidentStatus "INC-005" UNVERIFIED) 2000 resolvedE
  ∧ ¬ spec_rejected_transition (updateIncidentSeverity "INC-005" LOW) 2000 resolvedE
  ∧ outcome (updateIncidentStatus "INC-005" UNVERIFIED) 2000 resolvedE = Returns ()
  ∧ Incident.status <$> incidents (after (updateIncidentStatus "INC-005" UNVERIFIED) 2000 resolvedE)
    = [UNVERIFIED]
  ∧ Incident.severity <$> incidents (after (updateIncidentSeverity "INC-005" LOW) 2000 resolvedE)
    = [LOW].
Proof.
  split; [|split; [|split]].
  - eexists. split; [left|]. split; [reflexivity|]. left. reflexivity.
  - intros (H & _). vm_compute in H. discriminate.
  - intros (H & _). vm_compute in H. discriminate.
  - vm_compute. done.
Qed.

(** C1, amended.  Neither updateIncidentStatus nor updateIncidentSeverity
    looks at the current status: for every collection, id and requested
    value -- incidents that are RESOLVED, FALSE or DUPLICATE included --
    both calls return without an error; updateIncidentStatus gives every
    incident with that id the requested status and keeps its severity,
    updateIncidentSeverity gives it the requested severity and keeps its
    status; incidents with another id keep both. *)
Theorem setStatus_setSeverity_never_rejected
    (st : State) (now : Date) (id : string)
    (status : IncidentStatus) (severity : IncidentSeverity) :
  outcome (updateIncidentStatus id status) now st = Returns ()
  ∧ outcome (updateIncidentSeverity id severity) now st = Returns ()
  ∧ Forall2 (λ inc inc',
       Incident.id inc' = Incident.id inc
       ∧ Incident.severity inc' = Incident.severity inc
       ∧ Incident.status inc' =
           if decide (Incident.id inc = id) then status else Incident.status inc)
      (incidents st) (incidents (after (updateIncidentStatus id status) now st))
  ∧ Forall2 (λ inc inc',
       Incident.id inc' = Incident.id inc
       ∧ Incident.status inc' = Incident.status inc
       ∧ Incident.severity inc' =
           if decide (Incident.id inc = id) then severity else Incident.severity inc)
      (incidents st) (incidents (after (updateIncidentSeverity id severity) now st)).
Proof.
  unfold outcome, after.
  rewrite updateIncidentStatus_eq, updateIncidentSeverity_eq. simpl.
  split; [reflexivity|]. split; [reflexivity|].
  split; apply Forall2_onId; intros inc; unfold onId;
    destruct (decide (Incident.id inc = id)); done.
Qed.

(** ** Verification *)

(** C2, as stated, fails in its three departures from the code: an unknown
    id is not an error, a status other than UNVERIFIED is not an error, and
    [verifiedBy] is not the id of the caller when the caller is the
    responder account ([responder-001]). *)
Lemma verify_counterexample :
  ¬ spec_verify "admin-001" "INC-404" 2000 unverifiedA
  ∧ ¬ spec_verify "admin-001" "INC-005" 2000 resolvedE
  ∧ ¬ spec_verify "responder-001" "INC-001" 2000 unverifiedA
  ∧ outcome (verifyIncident "INC-404") 2000 unverifiedA = Returns ()
  ∧ Incident.status <$> incidents (after (verifyIncident "INC-005") 2000 resolvedE)
    = [VERIFIED]
  ∧ Incident.verifiedBy <$> incidents (after (verifyIncident "INC-001") 2000 unverifiedA)
    = [Some "admin-001"].
Proof.
  split; [|split; [|split]].
  - intros H. vm_compute in H. discriminate.
  - intros H. vm_compute in H. discriminate.
  - intros H. unfold spec_verify in H. simpl in H.
    destruct H as (_ & H & _).
    destruct (H (Incident.set_updatedAt 2000
                   (Incident.set_verifiedBy "admin-001"
                      (Incident.set_verifiedAt 2000
                         (Incident.set_status VERIFIED
                            (report "INC-001" LOW UNVERIFIED 40 1 1000))))))
      as (_ & _ & Hby); [left|reflexivity|].
    vm_compute in Hby. discriminate.
  - vm_compute. done.
Qed.

(** C2, amended.  verifyIncident(id) never fails.  Every incident with the
    given id, whatever its status, gets status VERIFIED, [verifiedAt] the
    current time and [verifiedBy] the constant ['admin-001']; every other
    incident is unchanged (so with an unknown id nothing changes); and in
    every case exactly one entry, for that id and with action VERIFIED and
    the current time, is put in front of the activity log. *)
Theorem verifyIncident_effect (st : State) (now : Date) (id : string) :
  outcome (verifyIncident id) now st = Returns ()
  ∧ Forall2 (λ inc inc',
       if decide (Incident.id inc = id) then
         Incident.id inc' = id
         ∧ Incident.status inc' = VERIFIED
         ∧ Incident.verifiedAt inc' = Some now
         ∧ Incident.verifiedBy inc' = Some "admin-001"
       else inc' = inc)
      (incidents st) (incidents (after (verifyIncident id) now st))
  ∧ ∃ entry,
      activityLogs (after (verifyIncident id) now st) = entry :: activityLogs st
      ∧ ActivityLog.incidentId entry = id
      ∧ ActivityLog.action entry = "VERIFIED"
      ∧ ActivityLog.timestamp entry = now.
Proof.
  unfold outcome, after. rewrite verifyIncident_eq. simpl.
  split; [reflexivity|]. split.
  - apply Forall2_onId. intros inc. unfold onId.
    destruct (decide (Incident.id inc = id)); done.
  - eexists. split; [reflexivity|]. done.
Qed.

(** ** False reports *)

(** C3, as stated, fails: markAsFalse(B, "") is not rejected; B becomes
    FALSE and a log entry is added. *)
Lemma markAsFalse_blank_counterexample :
  ¬ spec_markAsFalse_blank "INC-002" "" 2000 unverifiedB
  ∧ outcome (markAsFalse "INC-002" "") 2000 unverifiedB = Returns ()
  ∧ Incident.status <$> incidents (after (markAsFalse "INC-002" "") 2000 unverifiedB)
    = [FALSE]
  ∧ ActivityLog.details <$> activityLogs (after (markAsFalse "INC-002" "") 2000 unverifiedB)
    = ["Marked as false report: "].
Proof.
  split.
  - intros (H & _). vm_compute in H. discriminate.
  - vm_compute. done.
Qed.

(** C3, amended.  markAsFalse(id, reason) checks nothing and never fails:
    for every reason, the empty one included, it gives every incident with
    that id the status FALSE, leaves the others unchanged, and puts one
    entry in front of the activity log whose details are
    "Marked as false report: " followed by the reason.  A blank reason is
    stopped by the caller only: the panel's Confirm button is disabled
    while [falseReason.trim()] is empty, and then nothing is called, so the
    incidents and the log stay as they are. *)
Theorem markAsFalse_unvalidated
    (trim : string → string) (st : State) (now : Date)
    (id reason : string) (incident : Incident.t) :
  outcome (markAsFalse id reason) now st = Returns ()
  ∧ Forall2 (λ inc inc',
       if decide (Incident.id inc = id) then
         Incident.id inc' = id ∧ Incident.status inc' = FALSE
       else inc' = inc)
      (incidents st) (incidents (after (markAsFalse id reason) now st))
  ∧ (∃ entry,
      activityLogs (after (markAsFalse id reason) now st) = entry :: activityLogs st
      ∧ ActivityLog.incidentId entry = id
      ∧ ActivityLog.action entry = "MARKED_FALSE"
      ∧ ActivityLog.details entry = "Marked as false report: " +:+ reason)
  ∧ (trim reason = "" →
     outcome (confirmMarkFalse trim incident reason) now st = Returns ()
     ∧ after (confirmMarkFalse trim incident reason) now st = st).
Proof.
  unfold outcome, after. rewrite markAsFalse_eq. simpl.
  split; [reflexivity|]. split; [|split].
  - apply Forall2_onId. intros inc. unfold onId.
    destruct (decide (Incident.id inc = id)); done.
  - eexists. split; [reflexivity|]. done.
  - intros Hblank. unfold confirmMarkFalse. rewrite decide_True by done. done.
Qed.

Lemma markAsFalse_unvalidated_witness :
  asciiTrim "  " = ""
  ∧ after (confirmMarkFalse asciiTrim (report "INC-002" MEDIUM UNVERIFIED 55 2 1000) "  ")
      2000 unverifiedB = unverifiedB.
Proof.
  split; [reflexivity|].
  exact (proj2 (proj2 (proj2 (proj2
    (markAsFalse_unvalidated asciiTrim unverifiedB 2000 "INC-002" "  "
       (report "INC-002" MEDIUM UNVERIFIED 55 2 1000)))) eq_refl)).
Defined.

(** ** Duplicates *)

(** C4, as stated, fails in each of its three error cases: an incident can
    be marked as a duplicate of itself, of an id that no incident has, and
    of a FALSE incident; each call returns and sets DUPLICATE. *)
Lemma markAsDuplicate_counterexample :
  ¬ spec_markAsDuplicate "INC-003" "INC-003" 2000 unverifiedCD
  ∧ ¬ spec_markAsDuplicate "INC-003" "INC-404" 2000 unverifiedCD
  ∧ ¬ spec_markAsDuplicate "INC-003" "INC-004" 2000 discardedD
  ∧ outcome (markAsDuplicate "INC-003" "INC-003") 2000 unverifiedCD = Returns ()
  ∧ (λ inc, (Incident.status inc, Incident.duplicateOf inc))
      <$> incidents (after (markAsDuplicate "INC-003" "INC-003") 2000 unverifiedCD)
    = [(DUPLICATE, Some "INC-003"); (UNVERIFIED, None)].
Proof.
  split; [|split; [|split]].
  - intros H. vm_compute in H. discriminate.
  - intros H. vm_compute in H. discriminate.
  - intros H. vm_compute in H. discriminate.
  - vm_compute. done.
Qed.

(** C4, amended.  markAsDuplicate(id, originalId) checks nothing and never
    fails: whatever originalId is (the id itself, an id no incident has,
    the id of a FALSE or DUPLICATE incident), every incident with the given
    id gets status DUPLICATE and [duplicateOf] originalId, the others are
    unchanged, and one MARKED_DUPLICATE entry is logged.  The three
    conditions are met by the caller's selection list only: the originals
    the panel offers for an incident are exactly the incidents of the
    collection with another id and a status that is neither DUPLICATE nor
    FALSE. *)
Theorem markAsDuplicate_unvalidated
    (st : State) (now : Date) (id originalId : string) (incident : Incident.t) :
  outcome (markAsDuplicate id originalId) now st = Returns ()
  ∧ Forall2 (λ inc inc',
       if decide (Incident.id inc = id) then
         Incident.id inc' = id
         ∧ Incident.status inc' = DUPLICATE
         ∧ Incident.duplicateOf inc' = Some originalId
       else inc' = inc)
      (incidents st) (incidents (after (markAsDuplicate id originalId) now st))
  ∧ (∃ entry,
      activityLogs (after (markAsDuplicate id originalId) now st)
        = entry :: activityLogs st
      ∧ ActivityLog.incidentId entry = id
      ∧ ActivityLog.action entry = "MARKED_DUPLICATE")
  ∧ (∀ orig, orig ∈ duplicateOptions (incidents st) incident ↔
       orig ∈ incidents st
       ∧ Incident.id orig ≠ Incident.id incident
       ∧ Incident.status orig ≠ DUPLICATE
       ∧ Incident.status orig ≠ FALSE).
Proof.
  unfold outcome, after. rewrite markAsDuplicate_eq. simpl.
  split; [reflexivity|]. split; [|split].
  - apply Forall2_onId. intros inc. unfold onId.
    destruct (decide (Incident.id inc = id)); done.
  - eexists. split; [reflexivity|]. done.
  - intros orig. unfold duplicateOptions. rewrite list_elem_of_filter. tauto.
Qed.

(** ** Duplicates that resolve *)

Lemma Forall2_elem_of_r {A B} (R : A → B → Prop) (l : list A) (k : list B) y :
  Forall2 R l k → y ∈ k → ∃ x, x ∈ l ∧ R x y.
Proof.
  induction 1 as [|a b l k Hab _ IH]; intros Hy.
  - by apply elem_of_nil in Hy.
  - apply elem_of_cons in Hy as [->|Hy].
    + exists a. split; [left|done].
    + destruct (IH Hy) as (x & Hx & HR). exists x. split; [by right|done].
Qed.

Lemma Forall2_elem_of_l {A B} (R : A → B → Prop) (l : list A) (k : list B) x :
  Forall2 R l k → x ∈ l → ∃ y, y ∈ k ∧ R x y.
Proof.
  induction 1 as [|a b l k Hab _ IH]; intros Hx.
  - by apply elem_of_nil in Hx.
  - apply elem_of_cons in Hx as [->|Hx].
    + exists b. split; [left|done].
    + destruct (IH Hx) as (y & Hy & HR). exists y. split; [by right|done].
Qed.

Lemma duplicates_resolve_kept (incs incs' : list Incident.t) :
  Forall2 (keepsResolution incs incs') incs incs' →
  duplicates_resolve incs → duplicates_resolve incs'.
Proof.
  intros HR Hinv inc' Hin' Hdup'.
  destruct (Forall2_elem_of_r _ _ _ _ HR Hin') as (inc & Hin & Hid & Hnew & _).
  destruct (Hnew Hdup') as [[Hdup Hof]|Hres]; [|done].
  destruct (Hinv inc Hin Hdup) as (o & orig & Ho & Hne & Horig & Hoid & Hnd & Hnf).
  destruct (Forall2_elem_of_l _ _ _ _ HR Horig) as (orig' & Horig' & Hid' & _ & Hgood).
  destruct Hgood as [Hnd' Hnf']; [done|done| |].
  { exists inc. rewrite Hoid. done. }
  exists o, orig'. rewrite Hof, Hid, Hid', Hoid. done.
Qed.

Lemma tickUpvotes_upvotes_only draws (l : list Incident.t) :
  Forall2 (λ inc inc', ∃ n, inc' = Incident.set_upvotes n inc) l (tickUpvotes draws l).
Proof.
  revert draws. induction l as [|inc l IH]; intros draws; simpl.
  - constructor.
  - constructor; [eexists; reflexivity|apply IH].
Qed.

Lemma not_option_status status :
  status ∈ statusOptions → status ≠ DUPLICATE ∧ status ≠ FALSE.
Proof.
  unfold statusOptions. intros H.
  repeat (apply elem_of_cons in H as [->|H]; [done|]).
  by apply elem_of_nil in H.
Qed.

Lemma keepsDuplicates_step mockIncidents mockActivityLogs st c now :
  duplicates_resolve mockIncidents →
  duplicates_resolve (incidents st) →
  keepsDuplicates st c →
  duplicates_resolve (incidents (after (run mockIncidents mockActivityLogs c) now st)).
Proof.
  intros Hmock Hinv Hc. unfold after.
  destruct c as [id status|id severity|id|id reason|id originalId|nid content| |nid| |draws];
    simpl run.
  - rewrite updateIncidentStatus_eq. simpl.
    destruct (not_option_status _ Hc) as [Hnd Hnf].
    eapply duplicates_resolve_kept; [|done].
    apply Forall2_onId. intros inc. unfold onId, keepsResolution.
    destruct (decide (Incident.id inc = id)); simpl; [|by auto]. done.
  - rewrite updateIncidentSeverity_eq. simpl.
    eapply duplicates_resolve_kept; [|done].
    apply Forall2_onId. intros inc. unfold onId, keepsResolution.
    destruct (decide (Incident.id inc = id)); simpl; by auto.
  - rewrite verifyIncident_eq. simpl.
    eapply duplicates_resolve_kept; [|done].
    apply Forall2_onId. intros inc. unfold onId, keepsResolution.
    destruct (decide (Incident.id inc = id)); simpl; [|by auto]. done.
  - rewrite markAsFalse_eq. simpl. simpl in Hc.
    eapply duplicates_resolve_kept; [|done].
    apply Forall2_onId. intros inc. unfold onId, keepsResolution.
    destruct (decide (Incident.id inc = id)) as [e|ne]; simpl; [|by auto].
    split; [done|]. split; [done|]. intros _ _ Href. rewrite e in Href. done.
  - rewrite markAsDuplicate_eq. simpl.
    destruct Hc as (Hnref & incident & orig & Hincident & Horig & Hoid).
    unfold duplicateOptions in Horig.
    apply list_elem_of_filter in Horig as ((Hne & Hnd & Hnf) & Horig).
    eapply duplicates_resolve_kept; [|done].
    apply Forall2_onId. intros inc. unfold onId, keepsResolution.
    destruct (decide (Incident.id inc = id)) as [e|ne]; simpl; [|by auto].
    split; [done|]. split.
    + intros _. right. exists originalId, orig. simpl.
      split; [done|]. split; [congruence|]. split; [|done].
      apply list_elem_of_fmap. exists orig. split; [|done].
      unfold onId. rewrite decide_False; [done|]. congruence.
    + intros _ _ Href. rewrite e in Href. done.
  - done.
  - done.
  - done.
  - done.
  - unfold liveTick. destruct (isLiveUpdates st); [|done]. simpl.
    eapply duplicates_resolve_kept; [|done].
    eapply Forall2_impl; [apply tickUpvotes_upvotes_only|].
    intros inc inc' [n ->]. unfold keepsResolution. simpl. by auto.
Qed.

(** C5, as stated, fails: starting from two UNVERIFIED incidents (a
    collection without duplicates), marking C as a duplicate of D and then
    D as a false report reaches a state in which C is DUPLICATE and its
    original D is FALSE. *)
Lemma duplicate_of_discarded_counterexample :
  duplicates_resolve [incidentC; incidentD]
  ∧ reachable [incidentC; incidentD] [] [] [] noStats afterDuplicateThenFalse
  ∧ ¬ duplicates_resolve (incidents afterDuplicateThenFalse)
  ∧ (λ inc, (Incident.id inc, Incident.status inc, Incident.duplicateOf inc))
      <$> incidents afterDuplicateThenFalse
    = [("INC-003", DUPLICATE, Some "INC-004"); ("INC-004", FALSE, None)].
Proof.
  split; [|split; [|split]].
  - intros inc Hin Hdup.
    apply elem_of_cons in Hin as [->|Hin]; [discriminate|].
    apply list_elem_of_singleton in Hin. subst inc. discriminate.
  - unfold afterDuplicateThenFalse. do 2 apply reachable_run. apply reachable_initial.
  - intros Hinv.
    destruct (Hinv (Incident.set_updatedAt 2000
                      (Incident.set_duplicateOf "INC-004"
                         (Incident.set_status DUPLICATE incidentC))))
      as (o & orig & Ho & Hne & Horig & Hoid & Hnd & Hnf).
    { vm_compute. left. }
    { reflexivity. }
    vm_compute in Horig.
    apply elem_of_cons in Horig as [->|Horig].
    + apply Hnd. reflexivity.
    + apply list_elem_of_singleton in Horig. subst orig. apply Hnf. reflexivity.
  - vm_compute. reflexivity.
Qed.

(** C5, amended.  The code does not keep this in every reachable state.
    It holds in every state reached from a mock collection in which it
    holds by commands that (a) set a status to one of the five statuses of
    the panel's status selector, (b) mark as duplicate with an original
    taken from the panel's list (another id, an existing incident, status
    neither DUPLICATE nor FALSE), and (c) mark as false or as duplicate
    only an incident that no DUPLICATE incident has as its original; the
    other commands are unrestricted. *)
Theorem duplicates_resolve_when_guarded
    (mockIncidents : list Incident.t) (mockActivityLogs : list ActivityLog.t)
    (mockNotifications : list Notification.t) (mockAdminNotes : list AdminNote.t)
    (mockDashboardStats : DashboardStats.t) (st : State) :
  duplicates_resolve mockIncidents →
  guardedReachable mockIncidents mockActivityLogs mockNotifications
                   mockAdminNotes mockDashboardStats st →
  duplicates_resolve (incidents st).
Proof.
  intros Hmock Hreach. induction Hreach as [|st c now _ IH Hc].
  - exact Hmock.
  - by apply keepsDuplicates_step.
Qed.

Lemma no_duplicates_in_CD : duplicates_resolve [incidentC; incidentD].
Proof.
  intros inc Hin Hdup.
  apply elem_of_cons in Hin as [->|Hin]; [discriminate|].
  apply list_elem_of_singleton in Hin. subst inc. discriminate.
Defined.

Lemma C_marked_guarded :
  guardedReachable [incidentC; incidentD] [] [] [] noStats
    (after (run [incidentC; incidentD] [] (MarkAsDuplicate "INC-003" "INC-004")) 2000
       (initialState [incidentC; incidentD] [] [] [] noStats)).
Proof.
  apply guarded_run; [apply guarded_initial|]. split.
  - intros (inc & Hin & Hdup & _). simpl in Hin.
    apply elem_of_cons in Hin as [->|Hin]; [discriminate|].
    apply list_elem_of_singleton in Hin. subst inc. discriminate.
  - exists incidentC, incidentD. split; [reflexivity|]. split; [|reflexivity].
    unfold duplicateOptions. apply list_elem_of_filter. split.
    + split; [discriminate|]. split; discriminate.
    + simpl. right. left.
Defined.

Lemma duplicates_resolve_when_guarded_witness :
  duplicates_resolve
    (incidents
       (after (run [incidentC; incidentD] [] (MarkAsDuplicate "INC-003" "INC-004")) 2000
          (initialState [incidentC; incidentD] [] [] [] noStats))).
Proof.
  exact (duplicates_resolve_when_guarded [incidentC; incidentD] [] [] [] noStats _
           no_duplicates_in_CD C_marked_guarded).
Defined.

(** ** Dashboard aggregates *)

(** C6, as stated, fails: the aggregates are a state cell of their own,
    filled with the mock aggregates and never set again.  After the only
    UNVERIFIED incident is verified the stored "unverified" is still 1,
    while no incident is UNVERIFIED. *)
Lemma stale_stats_counterexample :
  spec_unverified_in_sync oneUnverified
  ∧ reachable [report "INC-001" LOW UNVERIFIED 40 1 1000] [] [] []
      (DashboardStats.mk 1 1 0 0)
      (after (verifyIncident "INC-001") 2000 oneUnverified)
  ∧ ¬ spec_unverified_in_sync (after (verifyIncident "INC-001") 2000 oneUnverified)
  ∧ DashboardStats.unverified
      (dashboardStats (after (verifyIncident "INC-001") 2000 oneUnverified)) = 1
  ∧ spec_unverified_count
      (incidents (after (verifyIncident "INC-001") 2000 oneUnverified)) = 0.
Proof.
  split; [reflexivity|]. split; [|split; [|split]].
  - apply (reachable_run _ [] [] [] _ _ (VerifyIncident "INC-001")).
    apply reachable_initial.
  - intros H. vm_compute in H. discriminate.
  - reflexivity.
  - reflexivity.
Qed.

(** C6, amended.  The dashboard shows a stored value: [dashboardStats] is
    a state cell that starts as the mock aggregates and that no command
    changes, whatever the command does to the incidents; it is not
    recomputed from the incident collection. *)
Theorem dashboardStats_never_recomputed
    (mockIncidents : list Incident.t) (mockActivityLogs : list ActivityLog.t)
    (mockNotifications : list Notification.t) (mockAdminNotes : list AdminNote.t)
    (mockDashboardStats : DashboardStats.t) :
  dashboardStats (initialState mockIncidents mockActivityLogs mockNotifications
                               mockAdminNotes mockDashboardStats)
  = mockDashboardStats
  ∧ ∀ (c : Command) (now : Date) (st : State),
      dashboardStats (after (run mockIncidents mockActivityLogs c) now st)
      = dashboardStats st.
Proof.
  split; [reflexivity|]. intros c now st. unfold after.
  destruct c; try reflexivity.
  simpl. unfold liveTick. destruct (isLiveUpdates st); reflexivity.
Qed.

(** ** Ranking *)

Section ArraySortFacts.
Context {A : Type}.
Variable comparefn : A → A → Z.

Local Abbreviation before := (notAfter comparefn).

Lemma insertSorted_perm x l : insertSorted comparefn x l ≡ₚ x :: l.
Proof.
  induction l as [|y l IH]; simpl; [done|].
  destruct (decide (comparefn x y ≤ 0)%Z); [done|].
  rewrite IH. apply Permutation_swap.
Qed.

Lemma arraySort_perm l : arraySort comparefn l ≡ₚ l.
Proof.
  induction l as [|x l IH]; simpl; [done|].
  rewrite insertSorted_perm. by rewrite IH.
Qed.

(** Elements of one class of [P] -- a class whose members never have to
    follow one another -- keep their order. *)
Lemma insertSorted_stable (P : A → Prop) `{!∀ x, Decision (P x)} x l :
  (∀ a b, P a → P b → before a b) →
  filter P (insertSorted comparefn x l) = filter P (x :: l).
Proof.
  intros Hclass. induction l as [|y l IH]; simpl; [done|].
  destruct (decide (comparefn x y ≤ 0)%Z) as [|Hgt]; [done|].
  rewrite (filter_cons P y), IH, !(filter_cons P x), (filter_cons P y).
  destruct (decide (P x)) as [Hx|Hx]; [|done].
  destruct (decide (P y)) as [Hy|Hy]; [|done].
  exfalso. apply Hgt. by apply Hclass.
Qed.

Lemma arraySort_stable (P : A → Prop) `{!∀ x, Decision (P x)} l :
  (∀ a b, P a → P b → before a b) →
  filter P (arraySort comparefn l) = filter P l.
Proof.
  intros Hclass. induction l as [|x l IH]; simpl; [done|].
  rewrite insertSorted_stable by done.
  by rewrite !filter_cons, IH.
Qed.

Hypothesis before_total : ∀ x y, ¬ before x y → before y x.
Hypothesis before_trans : ∀ x y z, before x y → before y z → before x z.

Lemma insertSorted_sorted x l :
  StronglySorted before l → StronglySorted before (insertSorted comparefn x l).
Proof.
  induction 1 as [|y l Hl IH Hy]; simpl.
  - repeat constructor.
  - destruct (decide (comparefn x y ≤ 0)%Z) as [Hle|Hgt].
    + constructor; [by constructor|].
      constructor; [done|].
      eapply Forall_impl; [exact Hy|]. intros z Hz. by eapply before_trans.
    + constructor; [done|].
      rewrite insertSorted_perm. constructor; [by apply before_total|done].
Qed.

Lemma arraySort_sorted l : StronglySorted before (arraySort comparefn l).
Proof.
  induction l as [|x l IH]; simpl; [constructor|by apply insertSorted_sorted].
Qed.
End ArraySortFacts.

Lemma StronglySorted_lookup {A} (R : A → A → Prop) (l : list A) i j a b :
  StronglySorted R l → (i < j)%nat → l !! i = Some a → l !! j = Some b → R a b.
Proof.
  intros Hl. revert i j. induction Hl as [|x l _ IH Hx]; intros i j Hij Hi Hj.
  - by rewrite lookup_nil in Hi.
  - destruct j as [|j]; [lia|]. simpl in Hj. destruct i as [|i]; simpl in Hi.
    + inversion Hi; subst x.
      rewrite Forall_forall in Hx. apply Hx. by eapply list_elem_of_lookup_2.
    + eapply (IH i j); [lia|done|done].
Qed.

(** The comparator decides the specification's order. *)
Lemma compareIncidents_ranksBefore a b :
  (compareIncidents a b ≤ 0)%Z ↔ ranksBefore a b.
Proof.
  unfold compareIncidents, ranksBefore, isCritical.
  destruct (decide (Incident.severity a = CRITICAL)),
    (decide (Incident.severity b = CRITICAL));
    repeat case_decide; intuition lia.
Qed.

Lemma ranksBefore_total a b : ¬ ranksBefore a b → ranksBefore b a.
Proof.
  unfold ranksBefore. intros H.
  destruct (decide (isCritical a)), (decide (isCritical b)); intuition lia.
Qed.

Lemma ranksBefore_trans a b c : ranksBefore a b → ranksBefore b c → ranksBefore a c.
Proof.
  unfold ranksBefore.
  destruct (decide (isCritical a)), (decide (isCritical b)), (decide (isCritical c));
    intuition lia.
Qed.

Lemma sameRank_ranksBefore x a b : sameRank x a → sameRank x b → ranksBefore a b.
Proof.
  unfold sameRank, ranksBefore.
  destruct (decide (isCritical a)), (decide (isCritical b)); intuition lia.
Qed.

Lemma StronglySorted_weaken {A} (R1 R2 : A → A → Prop) (l : list A) :
  (∀ x y, R1 x y → R2 x y) → StronglySorted R1 l → StronglySorted R2 l.
Proof.
  intros HR. induction 1 as [|x l _ IH Hx]; constructor; [done|].
  eapply Forall_impl; [exact Hx|]. intros y. apply HR.
Qed.

Lemma arraySort_ranked (l : list Incident.t) :
  StronglySorted ranksBefore (arraySort compareIncidents l).
Proof.
  eapply StronglySorted_weaken; [|apply arraySort_sorted].
  - intros a b. apply compareIncidents_ranksBefore.
  - intros a b Hab. apply compareIncidents_ranksBefore, ranksBefore_total.
    by rewrite <- compareIncidents_ranksBefore.
  - intros a b c. unfold notAfter. rewrite !compareIncidents_ranksBefore.
    apply ranksBefore_trans.
Qed.

(** Scenario 4: severities HIGH, CRITICAL, MEDIUM with equal priority,
    upvotes and creation time. *)
Example rank_scenario_4 :
  Incident.id <$> arraySort compareIncidents
    [report "INC-H" HIGH VERIFIED 50 3 1000;
     report "INC-C" CRITICAL VERIFIED 50 3 1000;
     report "INC-M" MEDIUM VERIFIED 50 3 1000]
  = ["INC-C"; "INC-H"; "INC-M"].
Proof. reflexivity. Qed.

Example rank_priority_upvotes_age :
  Incident.id <$> arraySort compareIncidents
    [report "old-low" LOW VERIFIED 10 0 100;
     report "young" LOW VERIFIED 90 7 900;
     report "old" LOW VERIFIED 90 7 200;
     report "voted" LOW VERIFIED 90 9 950;
     report "crit" CRITICAL VERIFIED 1 0 999]
  = ["crit"; "voted"; "old"; "young"; "old-low"].
Proof. reflexivity. Qed.

(** On the heap that holds scenario 4 at reference 1, the sorted array is
    the new reference 2 and reference 1 still holds the input. *)
Example sortedIncidents_scenario_4 :
  sortedIncidents tableHeap 1%positive
  = Some (2%positive,
          {[ 1%positive := scenario4;
             2%positive := [report "INC-C" CRITICAL VERIFIED 50 3 1000;
                            report "INC-H" HIGH VERIFIED 50 3 1000;
                            report "INC-M" MEDIUM VERIFIED 50 3 1000] ]}).
Proof. vm_compute. reflexivity. Qed.

(** C7. For every array of incidents on the heap, the table's
    [sortedIncidents] is a new array (a reference that was free), the
    input array and every other array are left as they were, and the new
    array holds a permutation of the input in which, for positions i < j,
    the element at i ranks before the element at j (CRITICAL before
    non-CRITICAL, then higher priority, then more upvotes, then earlier
    createdAt); hence every CRITICAL incident stands before every
    non-CRITICAL one; and the incidents of equal rank are in the order
    they had in the input. *)
Theorem sortedIncidents_ranked_stable_fresh
    (h : gmap ref (list Incident.t)) (incidentsRef : ref) (input : list Incident.t) :
  h !! incidentsRef = Some input →
  ∃ sortedRef h' output,
    sortedIncidents h incidentsRef = Some (sortedRef, h')
    ∧ h !! sortedRef = None
    ∧ h' !! sortedRef = Some output
    ∧ h' !! incidentsRef = Some input
    ∧ (∀ r, r ≠ sortedRef → h' !! r = h !! r)
    ∧ output ≡ₚ input
    ∧ (∀ i j a b, (i < j)%nat → output !! i = Some a → output !! j = Some b →
         ranksBefore a b)
    ∧ (∀ i j a b, output !! i = Some a → output !! j = Some b →
         isCritical a → ¬ isCritical b → (i < j)%nat)
    ∧ (∀ x, filter (sameRank x) output = filter (sameRank x) input).
Proof.
  intros Hin.
  assert (Hfree : h !! fresh (dom h) = None).
  { apply not_elem_of_dom. apply is_fresh. }
  assert (Hne : fresh (dom h) ≠ incidentsRef).
  { intros e. rewrite e in Hfree. congruence. }
  exists (fresh (dom h)),
    (<[fresh (dom h) := arraySort compareIncidents input]>
       (<[fresh (dom h) := input]> h)),
    (arraySort compareIncidents input).
  assert (Hsorted := arraySort_ranked input).
  split; [|split; [done|split; [|split; [|split; [|split; [|split; [|split]]]]]]].
  - unfold sortedIncidents, spreadCopy, sortInPlace. rewrite Hin. simpl.
    rewrite lookup_insert_eq. reflexivity.
  - apply lookup_insert_eq.
  - rewrite !lookup_insert_ne by done. done.
  - intros r Hr. rewrite !lookup_insert_ne by done. done.
  - apply arraySort_perm.
  - intros i j a b Hij Hi Hj. by eapply StronglySorted_lookup.
  - intros i j a b Hi Hj Ha Hb.
    destruct (decide (i < j)%nat) as [|Hge]; [done|]. exfalso.
    destruct (decide (i = j)) as [->|Hne'].
    + rewrite Hi in Hj. inversion Hj; subst b. done.
    + assert (Hba : ranksBefore b a).
      { eapply (StronglySorted_lookup _ _ j i); [done|lia|done|done]. }
      unfold ranksBefore in Hba. tauto.
  - intros x. apply arraySort_stable.
    intros a b Ha Hb. apply compareIncidents_ranksBefore.
    by eapply sameRank_ranksBefore.
Qed.

Lemma sortedIncidents_ranked_stable_fresh_witness :
  tableHeap !! 1%positive = Some scenario4
  ∧ ∃ sortedRef h' output,
      sortedIncidents tableHeap 1%positive = Some (sortedRef, h')
      ∧ h' !! sortedRef = Some output
      ∧ h' !! 1%positive = Some scenario4.
Proof.
  split; [reflexivity|].
  destruct (sortedIncidents_ranked_stable_fresh tableHeap 1%positive scenario4 eq_refl)
    as (sortedRef & h' & output & Hrun & _ & Hout & Hin & _).
  exists sortedRef, h', output. split; [exact Hrun|]. split; [exact Hout|exact Hin].
Defined.

(** ** Report creation *)

Lemma checkRequired_nonEmpty v : checkRequired v = true ↔ nonEmpty v.
Proof.
  unfold checkRequired, nonEmpty. destruct v as [s|].
  - rewrite negb_true_iff, bool_decide_eq_false. split.
    + intros Hs. by exists s.
    + intros (s' & [= <-] & Hs). done.
  - split; [done|]. intros (s & [=] & _).
Qed.

Lemma castFailed_true {A} (v : Sent A) : castFailed v = true ↔ v = CastFails.
Proof. by destruct v. Qed.

Lemma castFlag_nil {A} (v : Sent A) (path : string) :
  (if castFailed v then [path] else []) = [] ↔ v ≠ CastFails.
Proof. by destruct v. Qed.

Lemma castErrors_nil {Number} (body : ReportPayload.t Number) :
  castErrors body = [] ↔ castable body.
Proof.
  unfold castErrors, castable. rewrite !app_nil, !castFlag_nil. tauto.
Qed.

Lemma failedPaths_nil {Number} (doc : Report.t Number) :
  failedPaths doc = [] ↔ nonEmpty (Report.type doc) ∧ nonEmpty (Report.description doc).
Proof.
  rewrite <- !checkRequired_nonEmpty. unfold failedPaths.
  destruct (checkRequired (Report.type doc)),
    (checkRequired (Report.description doc)); simpl; split; try done; intros [? ?]; done.
Qed.

Lemma create_invalid {Number} (body : ReportPayload.t Number) now written reports :
  ¬ nonEmpty (castValue (ReportPayload.type body))
  ∨ ¬ nonEmpty (castValue (ReportPayload.description body))
  ∨ ¬ castable body →
  create body now written reports = (Throws ValidationError, reports).
Proof.
  intros Hbad. unfold create.
  destruct (castErrors body ++ failedPaths (hydrate body now))%list eqn:Herr; [|done].
  exfalso. apply app_eq_nil in Herr as [Hc Hf].
  apply castErrors_nil in Hc. apply failedPaths_nil in Hf as [Ht Hd].
  simpl in Ht, Hd. tauto.
Qed.

Lemma create_valid {Number} (body : ReportPayload.t Number) now written reports :
  nonEmpty (castValue (ReportPayload.type body)) →
  nonEmpty (castValue (ReportPayload.description body)) →
  castable body →
  create body now written reports
  = if written
    then (Returns (hydrate body now), (reports ++ [hydrate body now])%list)
    else (Throws PersistenceError, reports).
Proof.
  intros Ht Hd Hc. unfold create.
  assert (Hf : failedPaths (hydrate body now) = []) by (by apply failedPaths_nil).
  apply castErrors_nil in Hc. by rewrite Hc, Hf.
Qed.

Lemma missing_not_nonEmpty (v : Sent string) : missing v = true → ¬ nonEmpty (castValue v).
Proof. destruct v; try done. intros _ (s & [=] & _). Qed.

(** C9, as stated, fails: a payload in which both required fields are
    present is still rejected with a ValidationError, and nothing is
    stored, when one of them is the empty string, and also when another
    field (here the timestamp) cannot be cast to the type of its path. *)
Lemma create_empty_type_counterexample :
  missing (ReportPayload.type untypedReport) = false
  ∧ missing (ReportPayload.description untypedReport) = false
  ∧ ¬ spec_create untypedReport 5000 []
  ∧ create untypedReport 5000 true [] = (Throws ValidationError, [])
  ∧ missing (ReportPayload.type undatedReport) = false
  ∧ missing (ReportPayload.description undatedReport) = false
  ∧ ¬ spec_create undatedReport 5000 []
  ∧ create undatedReport 5000 true [] = (Throws ValidationError, []).
Proof.
  split; [done|]. split; [done|]. split; [|split; [done|]].
  { intros H. vm_compute in H. destruct H as (doc & H & _). discriminate. }
  split; [done|]. split; [done|]. split; [|done].
  intros H. vm_compute in H. destruct H as (doc & H & _). discriminate.
Qed.

(** C9, amended.  create(reportPayload) fails with a ValidationError, and
    stores nothing, when [type] or [description] is missing from the
    payload, is null or is the empty string, and also when the value of
    any field cannot be cast to the type of its path (the route then
    answers with status 500 and success false), whether or not the store
    would carry out a write.  When both required fields are strings of
    positive length and every value sent can be cast, the outcome is that
    of the write: if the store carries it out, create succeeds -- the
    report, with the payload's type and description and the defaults for
    absent timestamp, status and assignee, is added to the collection and
    returned, and the route answers success true with that report; if it
    does not, create fails with the store's error, not a ValidationError,
    and nothing is stored. *)
Theorem create_requires_nonempty {Number : Type}
    (body : ReportPayload.t Number) (now : Date) (written : bool)
    (reports : list (Report.t Number)) :
  (missing (ReportPayload.type body) = true
   ∨ missing (ReportPayload.description body) = true →
     create body now written reports = (Throws ValidationError, reports))
  ∧ (¬ nonEmpty (castValue (ReportPayload.type body))
     ∨ ¬ nonEmpty (castValue (ReportPayload.description body))
     ∨ ¬ castable body →
     create body now written reports = (Throws ValidationError, reports)
     ∧ postReport body now written reports
       = (mkResponse 500 false None (Some ValidationError), reports))
  ∧ (nonEmpty (castValue (ReportPayload.type body)) →
     nonEmpty (castValue (ReportPayload.description body)) →
     castable body →
     (∃ doc,
        create body now true reports = (Returns doc, (reports ++ [doc])%list)
        ∧ Report.type doc = castValue (ReportPayload.type body)
        ∧ Report.description doc = castValue (ReportPayload.description body)
        ∧ Report.status doc = castOrDefault "Pending" (ReportPayload.status body)
        ∧ Report.assignedTo doc
          = castOrDefault "Not Assigned" (ReportPayload.assignedTo body)
        ∧ Report.timestamp doc = castOrDefault now (ReportPayload.timestamp body)
        ∧ postReport body now true reports
          = (mkResponse 200 true (Some doc) None, (reports ++ [doc])%list))
     ∧ create body now false reports = (Throws PersistenceError, reports)
     ∧ postReport body now false reports
       = (mkResponse 500 false None (Some PersistenceError), reports)).
Proof.
  split; [|split].
  - intros Hmissing. apply create_invalid.
    destruct Hmissing as [H|H]; [left|right; left]; by apply missing_not_nonEmpty.
  - intros Hbad. unfold postReport. rewrite create_invalid by done. done.
  - intros Ht Hd Hc. split; [|split].
    + exists (hydrate body now).
      unfold postReport. rewrite create_valid by done. done.
    + by rewrite create_valid.
    + unfold postReport. by rewrite create_valid.
Qed.

Lemma fireReport_castable : castable fireReport.
Proof. by repeat split. Defined.

Lemma create_requires_nonempty_witness :
  nonEmpty (castValue (ReportPayload.type fireReport))
  ∧ nonEmpty (castValue (ReportPayload.description fireReport))
  ∧ castable fireReport
  ∧ ∃ doc, create fireReport 5000 true [] = (Returns doc, [doc])
           ∧ Report.status doc = Some "Pending".
Proof.
  assert (Ht : nonEmpty (castValue (ReportPayload.type fireReport))).
  { exists "FIRE". split; [reflexivity|discriminate]. }
  assert (Hd : nonEmpty (castValue (ReportPayload.description fireReport))).
  { exists "Smoke from a warehouse roof". split; [reflexivity|discriminate]. }
  split; [exact Ht|]. split; [exact Hd|]. split; [exact fireReport_castable|].
  destruct (proj1 (proj2 (proj2 (create_requires_nonempty fireReport 5000 true []))
                     Ht Hd fireReport_castable))
    as (doc & Hc & _ & _ & Hs & _).
  exists doc. split; [exact Hc|exact Hs].
Defined.

(** * Further properties of the code *)

(** ** What every command keeps *)

Lemma edit_Forall2 (P : Incident.t → Incident.t → Prop) st f id entry :
  (∀ inc, P inc inc) → (∀ inc, P inc (f inc)) →
  Forall2 P (incidents st) (incidents (edited st f id entry)).
Proof.
  intros Hrefl Hf. simpl. apply Forall2_onId. intros inc. unfold onId.
  destruct (decide (Incident.id inc = id)); auto.
Qed.

Lemma Forall2_diag {A} (P : A → A → Prop) (l : list A) :
  (∀ x, P x x) → Forall2 P l l.
Proof. intros HP. apply Forall_Forall2_diag, Forall_forall. auto. Qed.

Lemma command_Forall2 (P : Incident.t → Incident.t → Prop)
    mockIncidents mockActivityLogs c now st :
  (∀ inc, P inc inc) →
  (∀ inc n, P inc (Incident.set_upvotes n inc)) →
  (∀ inc status, P inc (Incident.set_updatedAt now (Incident.set_status status inc))) →
  (∀ inc severity,
     P inc (Incident.set_updatedAt now (Incident.set_severity severity inc))) →
  (∀ inc, P inc (Incident.set_updatedAt now
                   (Incident.set_verifiedBy "admin-001"
                      (Incident.set_verifiedAt now
                         (Incident.set_status VERIFIED inc))))) →
  (∀ inc o, P inc (Incident.set_updatedAt now
                     (Incident.set_duplicateOf o
                        (Incident.set_status DUPLICATE inc)))) →
  c ≠ RefreshData →
  Forall2 P (incidents st) (incidents (after (run mockIncidents mockActivityLogs c) now st)).
Proof.
  intros Hrefl Hup Hst Hsev Hver Hdup Hc. unfold after.
  destruct c as [id status|id severity|id|id reason|id originalId|nid content| |nid| |draws];
    simpl run.
  - rewrite updateIncidentStatus_eq. by apply edit_Forall2.
  - rewrite updateIncidentSeverity_eq. by apply edit_Forall2.
  - rewrite verifyIncident_eq. by apply edit_Forall2.
  - rewrite markAsFalse_eq. by apply edit_Forall2.
  - rewrite markAsDuplicate_eq. by apply edit_Forall2.
  - by apply Forall2_diag.
  - by apply Forall2_diag.
  - by apply Forall2_diag.
  - done.
  - unfold liveTick. destruct (isLiveUpdates st); [|by apply Forall2_diag]. simpl.
    eapply Forall2_impl; [apply tickUpvotes_upvotes_only|].
    intros inc inc' [n ->]. apply Hup.
Qed.

(** X1. No command other than a refresh adds, removes or reorders
    incidents, and none changes what identifies or describes a report:
    position by position, the incident after the command has the id, type,
    title, description, area, creation time, priority and reporter of the
    incident before it. *)
Theorem commands_keep_identity
    (mockIncidents : list Incident.t) (mockActivityLogs : list ActivityLog.t)
    (c : Command) (now : Date) (st : State) :
  c ≠ RefreshData →
  Forall2 sameIdentity (incidents st)
    (incidents (after (run mockIncidents mockActivityLogs c) now st)).
Proof. apply command_Forall2; intros; by repeat split. Qed.

Lemma commands_keep_identity_witness :
  MarkAsFalse "INC-004" "prank call" ≠ RefreshData
  ∧ Forall2 sameIdentity (incidents unverifiedCD)
      (incidents (after (run [] [] (MarkAsFalse "INC-004" "prank call")) 3000 unverifiedCD)).
Proof.
  assert (H : MarkAsFalse "INC-004" "prank call" ≠ RefreshData) by discriminate.
  split; [exact H|].
  exact (commands_keep_identity [] [] _ 3000 unverifiedCD H).
Defined.

(** X2. No command other than a refresh clears a stamp: an incident that
    has a verification time, a verifier or an original before the command
    still has one after it (also when its status is later set to something
    else). *)
Theorem commands_never_clear_stamps
    (mockIncidents : list Incident.t) (mockActivityLogs : list ActivityLog.t)
    (c : Command) (now : Date) (st : State) :
  c ≠ RefreshData →
  Forall2 keepsStamps (incidents st)
    (incidents (after (run mockIncidents mockActivityLogs c) now st)).
Proof.
  apply command_Forall2; intros; unfold keepsStamps; simpl; by eauto.
Qed.

Lemma commands_never_clear_stamps_witness :
  UpdateIncidentStatus "INC-003" IN_PROGRESS ≠ RefreshData
  ∧ Forall2 keepsStamps
      (incidents (after (markAsDuplicate "INC-003" "INC-004") 2000 unverifiedCD))
      (incidents (after (run [] [] (UpdateIncidentStatus "INC-003" IN_PROGRESS)) 3000
                    (after (markAsDuplicate "INC-003" "INC-004") 2000 unverifiedCD))).
Proof.
  assert (H : UpdateIncidentStatus "INC-003" IN_PROGRESS ≠ RefreshData) by discriminate.
  split; [exact H|].
  exact (commands_never_clear_stamps [] [] _ 3000 _ H).
Defined.

(** X3. The activity log only grows at its front: a command other than a
    refresh leaves the earlier entries as they were and puts in front of
    them exactly one entry when it is one of the six logging operations
    (with that operation's action) and none otherwise; the new entry is
    attributed to the fixed user 'admin-001' / 'John Commander' and
    stamped with the current time. *)
Theorem activity_log_grows_at_front
    (mockIncidents : list Incident.t) (mockActivityLogs : list ActivityLog.t)
    (c : Command) (now : Date) (st : State) :
  c ≠ RefreshData →
  ∃ entries,
    activityLogs (after (run mockIncidents mockActivityLogs c) now st)
    = (entries ++ activityLogs st)%list
    ∧ ActivityLog.action <$> entries = option_list (loggedAction c)
    ∧ Forall (λ e, ActivityLog.userId e = "admin-001"
                   ∧ ActivityLog.userName e = "John Commander"
                   ∧ ActivityLog.timestamp e = now
                   ∧ ActivityLog.id e = "log-" +:+ pretty now) entries.
Proof.
  intros Hc. unfold after.
  destruct c as [id status|id severity|id|id reason|id originalId|nid content| |nid| |draws];
    try done; simpl run;
    try (eexists [_]; split; [reflexivity|]; split; [reflexivity|];
         by repeat constructor).
  - exists []. by repeat split.
  - exists []. by repeat split.
  - exists []. unfold liveTick. destruct (isLiveUpdates st); by repeat split.
Qed.

Lemma activity_log_grows_at_front_witness :
  ∃ entries,
    activityLogs (after (run [] [] (AddAdminNote "INC-005" "called the owner")) 4000
                    (after (verifyIncident "INC-005") 3000 resolvedE))
    = (entries ++ activityLogs (after (verifyIncident "INC-005") 3000 resolvedE))%list
    ∧ ActivityLog.action <$> entries = ["NOTE_ADDED"].
Proof.
  destruct (activity_log_grows_at_front [] [] (AddAdminNote "INC-005" "called the owner")
              4000 (after (verifyIncident "INC-005") 3000 resolvedE))
    as (entries & Hlog & Hact & _); [discriminate|].
  exists entries. split; [exact Hlog|exact Hact].
Defined.

(** ** The live-update timer *)

Lemma tickUpvotes_bounds draws (l : list Incident.t) :
  Forall2 (λ inc inc',
       inc' = Incident.set_upvotes (Incident.upvotes inc') inc
       ∧ (Incident.upvotes inc ≤ Incident.upvotes inc' ≤ Incident.upvotes inc + 1)%Z
       ∧ (Incident.status inc = RESOLVED → Incident.upvotes inc' = Incident.upvotes inc))
    l (tickUpvotes draws l).
Proof.
  revert draws. induction l as [|inc l IH]; intros draws; simpl; constructor; [|apply IH].
  simpl. split; [reflexivity|].
  destruct (decide (Incident.status inc ≠ RESOLVED)) as [Hn|Hr].
  - split; [|done]. destruct draws as [|[|] ?]; lia.
  - split; [lia|done].
Qed.

Lemma tickUpvotes_lookup draws (l : list Incident.t) i inc :
  l !! i = Some inc →
  tickUpvotes draws l !! i
  = Some (Incident.set_upvotes
            (if decide (Incident.status inc ≠ RESOLVED)
             then Incident.upvotes inc + drawnFor draws i
             else Incident.upvotes inc) inc).
Proof.
  revert draws i. induction l as [|x l IH]; intros draws i Hi; [done|].
  destruct i as [|i]; simpl in Hi.
  - injection Hi as ->. simpl. unfold drawnFor.
    by destruct draws as [|[|] ?].
  - simpl. rewrite (IH (tail draws) i Hi). unfold drawnFor.
    by rewrite lookup_tail.
Qed.

(** X4. A tick of the live-update timer changes nothing but upvotes: each
    incident keeps every other field, its upvotes grow by 0 or 1 and never
    shrink, and a RESOLVED incident keeps its upvotes; the log, the notes,
    the notifications, the aggregates and the flag are as before.  While
    live updates are on, every incident that is not RESOLVED -- a FALSE or
    DUPLICATE one like any other -- gains exactly the 0 or 1 drawn for it;
    RESOLVED is the only status the timer exempts. *)
Theorem liveTick_only_adds_upvotes (draws : list bool) (now : Date) (st : State) :
  outcome (liveTick draws) now st = Returns ()
  ∧ Forall2 (λ inc inc',
         inc' = Incident.set_upvotes (Incident.upvotes inc') inc
         ∧ (Incident.upvotes inc ≤ Incident.upvotes inc' ≤ Incident.upvotes inc + 1)%Z
         ∧ (Incident.status inc = RESOLVED →
            Incident.upvotes inc' = Incident.upvotes inc))
      (incidents st) (incidents (after (liveTick draws) now st))
  ∧ activityLogs (after (liveTick draws) now st) = activityLogs st
  ∧ adminNotes (after (liveTick draws) now st) = adminNotes st
  ∧ notifications (after (liveTick draws) now st) = notifications st
  ∧ dashboardStats (after (liveTick draws) now st) = dashboardStats st
  ∧ isLiveUpdates (after (liveTick draws) now st) = isLiveUpdates st
  ∧ (isLiveUpdates st = true →
     ∀ i inc, incidents st !! i = Some inc →
       Incident.status inc ≠ RESOLVED →
       ∃ inc', incidents (after (liveTick draws) now st) !! i = Some inc'
               ∧ Incident.upvotes inc' = Incident.upvotes inc + drawnFor draws i).
Proof.
  unfold outcome, after, liveTick. destruct (isLiveUpdates st) eqn:Hlive; simpl.
  - split; [done|]. split; [apply tickUpvotes_bounds|].
    rewrite Hlive. repeat (split; [done|]).
    intros _ i inc Hi Hstatus. eexists. split; [by apply tickUpvotes_lookup|].
    simpl. by rewrite decide_True.
  - split; [done|]. split; [|by rewrite Hlive].
    apply Forall2_diag. intros [? ? ? ? ? ? ? ? ? ? ? ? ? ? ?]. simpl.
    split; [reflexivity|]. split; [lia|done].
Qed.

Lemma liveTick_only_adds_upvotes_witness :
  isLiveUpdates resolvedAndFalse = true
  ∧ incidents resolvedAndFalse !! 1%nat = Some (report "INC-011" LOW FALSE 20 6 1100)
  ∧ Incident.status (report "INC-011" LOW FALSE 20 6 1100) ≠ RESOLVED
  ∧ ∃ inc', incidents (after (liveTick [true; true; true]) 5000 resolvedAndFalse) !! 1%nat
            = Some inc'
            ∧ Incident.upvotes inc'
              = Incident.upvotes (report "INC-011" LOW FALSE 20 6 1100)
                + drawnFor [true; true; true] 1.
Proof.
  assert (Hs : Incident.status (report "INC-011" LOW FALSE 20 6 1100) ≠ RESOLVED)
    by discriminate.
  split; [reflexivity|]. split; [reflexivity|]. split; [exact Hs|].
  exact (proj2 (proj2 (proj2 (proj2 (proj2 (proj2 (proj2
    (liveTick_only_adds_upvotes [true; true; true] 5000 resolvedAndFalse)))))))
    eq_refl 1%nat (report "INC-011" LOW FALSE 20 6 1100) eq_refl Hs).
Defined.

(** The timer does not stop for discarded reports: a FALSE incident gains
    a vote like any other that is not RESOLVED. *)
Example liveTick_on_discarded :
  Incident.upvotes <$> incidents (after (liveTick [true; true; true]) 5000 resolvedAndFalse)
  = [4; 7; 10].
Proof. reflexivity. Qed.

(** Switching live updates off and on again restores the state, the
    switch touches nothing but the flag, and while the flag is off a tick
    of the timer leaves the state exactly as it is. *)
Theorem toggleLiveUpdates_involution (now now' : Date) (draws : list bool) (st : State) :
  after toggleLiveUpdates now' (after toggleLiveUpdates now st) = st
  ∧ isLiveUpdates (after toggleLiveUpdates now st) = negb (isLiveUpdates st)
  ∧ incidents (after toggleLiveUpdates now st) = incidents st
  ∧ activityLogs (after toggleLiveUpdates now st) = activityLogs st
  ∧ (isLiveUpdates st = true →
     after (liveTick draws) now' (after toggleLiveUpdates now st)
     = after toggleLiveUpdates now st).
Proof.
  unfold after, toggleLiveUpdates, setIsLiveUpdates, liveTick; simpl.
  split; [destruct st; simpl; by rewrite negb_involutive|].
  split; [done|]. split; [done|]. split; [done|].
  intros ->. done.
Qed.

Lemma toggleLiveUpdates_involution_witness :
  isLiveUpdates resolvedAndFalse = true
  ∧ after (liveTick [true; true; true]) 6000 (after toggleLiveUpdates 5000 resolvedAndFalse)
    = after toggleLiveUpdates 5000 resolvedAndFalse.
Proof.
  split; [reflexivity|].
  exact (proj2 (proj2 (proj2 (proj2
    (toggleLiveUpdates_involution 5000 6000 [true; true; true] resolvedAndFalse))))
    eq_refl).
Defined.

(** ** Notifications *)

Lemma unread_markRead id (l : list Notification.t) :
  (length (filter (λ n, Notification.read n = false) (markRead id <$> l))
   + length (filter (λ n, Notification.id n = id ∧ Notification.read n = false) l)
   = length (filter (λ n, Notification.read n = false) l))%nat.
Proof.
  induction l as [|n l IH]; [done|].
  assert (Hread : Notification.read (markRead id n) = false
                  ↔ Notification.read n = false ∧ Notification.id n ≠ id).
  { unfold markRead. destruct (decide (Notification.id n = id)); simpl; [|tauto].
    split; [discriminate|tauto]. }
  rewrite fmap_cons, !filter_cons.
  destruct (decide (Notification.read (markRead id n) = false)),
    (decide (Notification.id n = id ∧ Notification.read n = false)),
    (decide (Notification.read n = false));
    simpl; try lia; exfalso; destruct (decide (Notification.id n = id)); tauto.
Qed.

(** X5. Marking a notification as read lowers the unread count by exactly
    the number of unread notifications that have the given id: by nothing
    for an unknown id or one already read, and never below what the other
    notifications account for. *)
Theorem unread_count_after_read (st : State) (now : Date) (id : string) :
  (getUnreadNotificationCount (after (markNotificationRead id) now st)
   + length (filter (λ n, Notification.id n = id ∧ Notification.read n = false)
               (notifications st))
   = getUnreadNotificationCount st)%nat.
Proof.
  unfold getUnreadNotificationCount, after. rewrite markNotificationRead_eq. simpl.
  apply unread_markRead.
Qed.

(** X6. No command creates, removes or reorders notifications, and the
    unread count never goes up: apart from markNotificationRead every
    command leaves the notifications exactly as they are. *)
Theorem notifications_only_marked_read
    (mockIncidents : list Incident.t) (mockActivityLogs : list ActivityLog.t)
    (c : Command) (now : Date) (st : State) :
  Notification.id <$> notifications (after (run mockIncidents mockActivityLogs c) now st)
  = Notification.id <$> notifications st
  ∧ (getUnreadNotificationCount (after (run mockIncidents mockActivityLogs c) now st)
     ≤ getUnreadNotificationCount st)%nat
  ∧ ((∀ id, c ≠ MarkNotificationRead id) →
     notifications (after (run mockIncidents mockActivityLogs c) now st)
     = notifications st).
Proof.
  destruct c as [id status|id severity|id|id reason|id originalId|nid content| |nid| |draws];
    try (split; [reflexivity|]; split; [reflexivity|]; intros _; reflexivity).
  - split; [|split].
    + unfold after. simpl run. rewrite markNotificationRead_eq. simpl.
      rewrite <- list_fmap_compose. apply list_fmap_ext. intros _ n _.
      unfold compose, markRead. by destruct (decide (Notification.id n = nid)).
    + pose proof (unread_count_after_read st now nid) as H. simpl run. lia.
    + intros H. by destruct (H nid).
  - assert (H : notifications (after (run mockIncidents mockActivityLogs (LiveTick draws)) now st)
                = notifications st).
    { unfold after. simpl. unfold liveTick. by destruct (isLiveUpdates st). }
    unfold getUnreadNotificationCount. rewrite H. done.
Qed.

Lemma notifications_only_marked_read_witness :
  (∀ id, VerifyIncident "INC-001" ≠ MarkNotificationRead id)
  ∧ notifications (after (run [] [] (VerifyIncident "INC-001")) 3000 inbox)
    = notifications inbox.
Proof.
  assert (H : ∀ id, VerifyIncident "INC-001" ≠ MarkNotificationRead id)
    by (intros id; discriminate).
  split; [exact H|].
  exact (proj2 (proj2 (notifications_only_marked_read [] [] _ 3000 inbox)) H).
Defined.

(** ** How edits compose *)


Lemma onId_overwrite id f g (l : list Incident.t) :
  (∀ inc, Incident.id (f inc) = Incident.id inc) →
  (∀ inc, g (f inc) = g inc) →
  onId id g <$> (onId id f <$> l) = onId id g <$> l.
Proof.
  intros Hf Hgf. rewrite <- list_fmap_compose. apply list_fmap_ext.
  intros _ inc _. unfold compose, onId.
  destruct (decide (Incident.id inc = id)) as [e|n].
  - rewrite decide_True by (by rewrite Hf). apply Hgf.
  - by rewrite decide_False.
Qed.



(** X8. The later of two edits of the same kind wins and the earlier one
    leaves no trace in the incidents: setting a status (or a severity)
    twice, or verifying twice, gives the incident collection of the second
    call alone -- a second verification restamps [verifiedAt] -- while the
    activity log holds an entry for each call. *)
Theorem later_edit_overwrites
    (id : string) (s1 s2 : IncidentStatus) (v1 v2 : IncidentSeverity)
    (t1 t2 : Date) (st : State) :
  incidents (after (updateIncidentStatus id s2) t2
               (after (updateIncidentStatus id s1) t1 st))
  = incidents (after (updateIncidentStatus id s2) t2 st)
  ∧ incidents (after (updateIncidentSeverity id v2) t2
                 (after (updateIncidentSeverity id v1) t1 st))
    = incidents (after (updateIncidentSeverity id v2) t2 st)
  ∧ incidents (after (verifyIncident id) t2 (after (verifyIncident id) t1 st))
    = incidents (after (verifyIncident id) t2 st)
  ∧ length (activityLogs (after (verifyIncident id) t2 (after (verifyIncident id) t1 st)))
    = S (S (length (activityLogs st)))
  ∧ length (activityLogs (after (updateIncidentStatus id s2) t2
                            (after (updateIncidentStatus id s1) t1 st)))
    = S (S (length (activityLogs st)))
  ∧ length (activityLogs (after (updateIncidentSeverity id v2) t2
                            (after (updateIncidentSeverity id v1) t1 st)))
    = S (S (length (activityLogs st))).
Proof.
  unfold after.
  rewrite !updateIncidentStatus_eq, !updateIncidentSeverity_eq, !verifyIncident_eq.
  simpl. repeat split; by apply onId_overwrite.
Qed.

(** X9. Only verifyIncident writes the verification stamps and only
    markAsDuplicate writes [duplicateOf]: every other command apart from a
    refresh leaves [verifiedAt] and [verifiedBy] (resp. [duplicateOf]) of
    every incident exactly as they were.  In particular an incident set to
    VERIFIED through the status selector gets no [verifiedAt]. *)
Theorem stamps_have_one_writer
    (mockIncidents : list Incident.t) (mockActivityLogs : list ActivityLog.t)
    (c : Command) (now : Date) (st : State) :
  c ≠ RefreshData →
  ((∀ id, c ≠ VerifyIncident id) →
   Forall2 (λ inc inc', Incident.verifiedAt inc' = Incident.verifiedAt inc
                        ∧ Incident.verifiedBy inc' = Incident.verifiedBy inc)
     (incidents st) (incidents (after (run mockIncidents mockActivityLogs c) now st)))
  ∧ ((∀ id originalId, c ≠ MarkAsDuplicate id originalId) →
     Forall2 (λ inc inc', Incident.duplicateOf inc' = Incident.duplicateOf inc)
       (incidents st) (incidents (after (run mockIncidents mockActivityLogs c) now st))).
Proof.
  intros Hc. split.
  - intros Hv. destruct c; try done; try (by destruct (Hv id));
      unfold after; simpl run;
      rewrite ?updateIncidentStatus_eq, ?updateIncidentSeverity_eq,
        ?markAsFalse_eq, ?markAsDuplicate_eq;
      try (by apply edit_Forall2); try (by apply Forall2_diag).
    unfold liveTick. destruct (isLiveUpdates st); [|by apply Forall2_diag]. simpl.
    eapply Forall2_impl; [apply tickUpvotes_upvotes_only|]. by intros inc inc' [n ->].
  - intros Hd. destruct c; try done; try (by destruct (Hd id originalId));
      unfold after; simpl run;
      rewrite ?updateIncidentStatus_eq, ?updateIncidentSeverity_eq,
        ?markAsFalse_eq, ?verifyIncident_eq;
      try (by apply edit_Forall2); try (by apply Forall2_diag).
    unfold liveTick. destruct (isLiveUpdates st); [|by apply Forall2_diag]. simpl.
    eapply Forall2_impl; [apply tickUpvotes_upvotes_only|]. by intros inc inc' [n ->].
Qed.

Lemma stamps_have_one_writer_witness :
  Incident.verifiedAt <$>
    incidents (after (run [] [] (UpdateIncidentStatus "INC-001" VERIFIED)) 3000 unverifiedA)
  = [None].
Proof.
  assert (Hc : UpdateIncidentStatus "INC-001" VERIFIED ≠ RefreshData) by discriminate.
  assert (Hv : ∀ id, UpdateIncidentStatus "INC-001" VERIFIED ≠ VerifyIncident id)
    by (intros id; discriminate).
  pose proof (proj1 (stamps_have_one_writer [] [] _ 3000 unverifiedA Hc) Hv) as H.
  apply Forall2_cons_inv_l in H as (inc' & l' & [Hat _] & Hnil & Heq).
  apply Forall2_nil_inv_l in Hnil. rewrite Heq, Hnil. simpl. by rewrite Hat.
Defined.

(** ** The selected incident *)

Lemma list_find_onId sid id f (l : list Incident.t) :
  (∀ inc, Incident.id (f inc) = Incident.id inc) →
  list_find (λ i, Incident.id i = sid) (onId id f <$> l)
  = prod_map Datatypes.id (onId id f) <$> list_find (λ i, Incident.id i = sid) l.
Proof.
  intros Hf.
  assert (Hid : ∀ inc, Incident.id (onId id f inc) = Incident.id inc).
  { intros inc. unfold onId. destruct (decide (Incident.id inc = id)); [apply Hf|done]. }
  induction l as [|x l IH]; [done|].
  rewrite fmap_cons. simpl list_find.
  destruct (decide (Incident.id x = sid)) as [e|n].
  - rewrite decide_True by (by rewrite Hid). done.
  - rewrite decide_False by (by rewrite Hid). rewrite IH.
    by destruct (list_find _ l) as [[i y]|].
Qed.

(** X11. Synchronising the selection never deselects and never changes
    which id is selected: the selection becomes the first incident of the
    collection that has the selected id, stays as it is (possibly stale)
    when no incident has that id, and synchronising again changes
    nothing. *)
Theorem syncSelectedIncident_first_match
    (incidents : list Incident.t) (selected : Incident.t) :
  syncSelectedIncident incidents None = None
  ∧ ∃ shown,
      syncSelectedIncident incidents (Some selected) = Some shown
      ∧ Incident.id shown = Incident.id selected
      ∧ ((∀ inc, inc ∈ incidents → Incident.id inc ≠ Incident.id selected) →
         shown = selected)
      ∧ ((∃ inc, inc ∈ incidents ∧ Incident.id inc = Incident.id selected) →
         ∃ i, incidents !! i = Some shown
              ∧ ∀ j inc, incidents !! j = Some inc → (j < i)%nat →
                  Incident.id inc ≠ Incident.id selected)
      ∧ syncSelectedIncident incidents (Some shown) = Some shown.
Proof.
  split; [done|]. unfold syncSelectedIncident.
  destruct (list_find (λ i, Incident.id i = Incident.id selected) incidents)
    as [[i shown]|] eqn:Hfind.
  - apply list_find_Some in Hfind as Hspec. destruct Hspec as (Hi & Hid & Hfirst).
    exists shown. split; [done|]. split; [done|]. split; [|split].
    + intros Hnone. exfalso. eapply Hnone; [|done]. by eapply list_elem_of_lookup_2.
    + intros _. by exists i.
    + rewrite Hid, Hfind. done.
  - apply list_find_None in Hfind as Hnone. rewrite Forall_forall in Hnone.
    exists selected. split; [done|]. split; [done|]. split; [done|]. split.
    + intros (inc & Hin & Hid). by destruct (Hnone inc Hin).
    + by rewrite Hfind.
Qed.

Lemma syncSelectedIncident_first_match_witness :
  (∃ inc, inc ∈ incidents unverifiedCD ∧ Incident.id inc = Incident.id incidentD)
  ∧ ∃ shown i,
      syncSelectedIncident (incidents unverifiedCD)
        (Some (Incident.set_upvotes 0 incidentD)) = Some shown
      ∧ incidents unverifiedCD !! i = Some shown.
Proof.
  assert (H : ∃ inc, inc ∈ incidents unverifiedCD
                     ∧ Incident.id inc = Incident.id incidentD).
  { exists incidentD. split; [|reflexivity]. simpl. right. left. }
  split; [exact H|].
  destruct (syncSelectedIncident_first_match (incidents unverifiedCD)
              (Incident.set_upvotes 0 incidentD))
    as (_ & shown & Hsync & _ & _ & Hidx & _).
  destruct (Hidx H) as (i & Hi & _).
  exists shown, i. split; [exact Hsync|exact Hi].
Defined.

(** X12. After an edit, the synchronised selection shows the edited
    record: when some incident has the selected id, the selection after
    verifyIncident on that id is VERIFIED and stamped, after markAsFalse it
    is FALSE, and after markAsDuplicate it is DUPLICATE of the given
    original -- so the panel's footer, which offers its actions for
    UNVERIFIED only, no longer offers them. *)
Theorem selection_shows_the_edit
    (st : State) (now : Date) (selected : Incident.t) (reason originalId : string) :
  (∃ inc, inc ∈ incidents st ∧ Incident.id inc = Incident.id selected) →
  (∃ shown,
     syncSelectedIncident
       (incidents (after (verifyIncident (Incident.id selected)) now st))
       (Some selected) = Some shown
     ∧ Incident.id shown = Incident.id selected
     ∧ Incident.status shown = VERIFIED
     ∧ Incident.verifiedAt shown = Some now
     ∧ Incident.verifiedBy shown = Some "admin-001")
  ∧ (∃ shown,
       syncSelectedIncident
         (incidents (after (markAsFalse (Incident.id selected) reason) now st))
         (Some selected) = Some shown
       ∧ Incident.id shown = Incident.id selected
       ∧ Incident.status shown = FALSE)
  ∧ (∃ shown,
       syncSelectedIncident
         (incidents (after (markAsDuplicate (Incident.id selected) originalId) now st))
         (Some selected) = Some shown
       ∧ Incident.id shown = Incident.id selected
       ∧ Incident.status shown = DUPLICATE
       ∧ Incident.duplicateOf shown = Some originalId).
Proof.
  intros (inc & Hin & Hid).
  destruct (list_find (λ i, Incident.id i = Incident.id selected) (incidents st))
    as [[i x]|] eqn:Hfind.
  2:{ apply list_find_None in Hfind. rewrite Forall_forall in Hfind.
      by destruct (Hfind inc Hin). }
  apply list_find_Some in Hfind as Hspec. destruct Hspec as (_ & Hx & _).
  unfold after, syncSelectedIncident.
  rewrite verifyIncident_eq, markAsFalse_eq, markAsDuplicate_eq. simpl.
  rewrite !list_find_onId by done. rewrite Hfind. simpl.
  unfold onId. rewrite !decide_True by done.
  split; [|split]; eexists; (split; [reflexivity|]); simpl; done.
Qed.

Lemma selection_shows_the_edit_witness :
  ∃ shown,
    syncSelectedIncident
      (incidents (after (verifyIncident (Incident.id incidentC)) 2000 unverifiedCD))
      (Some incidentC) = Some shown
    ∧ Incident.status shown = VERIFIED.
Proof.
  assert (H : ∃ inc, inc ∈ incidents unverifiedCD
                     ∧ Incident.id inc = Incident.id incidentC).
  { exists incidentC. split; [|reflexivity]. simpl. left. }
  destruct (proj1 (selection_shows_the_edit unverifiedCD 2000 incidentC "" "" H))
    as (shown & Hsync & _ & Hstatus & _).
  exists shown. split; [exact Hsync|exact Hstatus].
Defined.

(** ** Notes *)

Lemma addAdminNote_eq incidentId content now st :
  addAdminNote incidentId content now st =
  (Returns (),
   mkState (incidents st)
     (logEntry now incidentId "NOTE_ADDED" "Admin note added" :: activityLogs st)
     (notifications st)
     (AdminNote.mk ("note-" +:+ pretty now) incidentId content
                   "admin-001" "John Commander" now :: adminNotes st)
     (dashboardStats st) (isLiveUpdates st)).
Proof. reflexivity. Qed.

(** X13. Adding a note from the panel: a note that is blank after
    trimming changes nothing at all; any other note is stored as typed
    (untrimmed), for every incident whatever its status, in front of that
    incident's notes, with author 'admin-001' and the current time; the
    notes shown for an incident with another id and the incident
    collection are unchanged, and one NOTE_ADDED entry is logged. *)
Theorem handleAddNote_prepends_note
    (trim : string → string) (st : State) (now : Date)
    (incident other : Incident.t) (newNote : string) :
  (trim newNote = "" → handleAddNote trim incident newNote now st = (Returns (), st))
  ∧ (trim newNote ≠ "" →
     outcome (handleAddNote trim incident newNote) now st = Returns ()
     ∧ incidents (after (handleAddNote trim incident newNote) now st) = incidents st
     ∧ (∃ note,
          incidentNotes (adminNotes (after (handleAddNote trim incident newNote) now st))
            incident
          = note :: incidentNotes (adminNotes st) incident
          ∧ AdminNote.content note = newNote
          ∧ AdminNote.authorId note = "admin-001"
          ∧ AdminNote.createdAt note = now)
     ∧ (Incident.id other ≠ Incident.id incident →
        incidentNotes (adminNotes (after (handleAddNote trim incident newNote) now st))
          other
        = incidentNotes (adminNotes st) other)
     ∧ ∃ entry,
         activityLogs (after (handleAddNote trim incident newNote) now st)
         = entry :: activityLogs st
         ∧ ActivityLog.action entry = "NOTE_ADDED"
         ∧ ActivityLog.incidentId entry = Incident.id incident).
Proof.
  unfold handleAddNote, outcome, after. split.
  - intros Hblank. by rewrite decide_True.
  - intros Hnote. rewrite decide_False by done. rewrite addAdminNote_eq. simpl.
    split; [done|]. split; [done|]. split; [|split].
    + eexists. unfold incidentNotes. rewrite filter_cons, decide_True by done.
      split; [reflexivity|]. done.
    + intros Hother. unfold incidentNotes. rewrite filter_cons, decide_False; [done|].
      simpl. congruence.
    + eexists. split; [reflexivity|]. done.
Qed.

Lemma handleAddNote_prepends_note_witness :
  asciiTrim " follow-up " ≠ ""
  ∧ incidents (after (handleAddNote asciiTrim (report "INC-005" HIGH RESOLVED 70 4 1000)
                        " follow-up ") 4000 resolvedE)
    = incidents resolvedE
  ∧ AdminNote.content <$>
      adminNotes (after (handleAddNote asciiTrim (report "INC-005" HIGH RESOLVED 70 4 1000)
                           " follow-up ") 4000 resolvedE)
    = [" follow-up "].
Proof.
  assert (H : asciiTrim " follow-up " ≠ "") by discriminate.
  split; [exact H|].
  destruct (proj2 (handleAddNote_prepends_note asciiTrim resolvedE 4000
                     (report "INC-005" HIGH RESOLVED 70 4 1000)
                     (report "INC-005" HIGH RESOLVED 70 4 1000) " follow-up ") H)
    as (_ & Hinc & _).
  split; [exact Hinc|reflexivity].
Defined.

(** ** The table's selection *)

Lemma filter_ne_absent (id : string) (l : list string) :
  id ∉ l → filter (λ i, i ≠ id) l = l.
Proof.
  induction l as [|x l IH]; intros Hid; [done|].
  apply not_elem_of_cons in Hid as [Hne Hid].
  rewrite filter_cons, decide_True by done. by rewrite IH.
Qed.

Lemma filter_ne_present (id : string) (l : list string) :
  NoDup l → id ∈ l → (filter (λ i, i ≠ id) l ++ [id])%list ≡ₚ l.
Proof.
  induction l as [|x l IH]; intros Hnd Hid; [by apply elem_of_nil in Hid|].
  apply NoDup_cons in Hnd as [Hx Hnd]. rewrite filter_cons.
  destruct (decide (x = id)) as [->|Hne].
  - rewrite decide_False by tauto. rewrite filter_ne_absent by done.
    symmetry. apply Permutation_cons_append.
  - rewrite decide_True by done. simpl. f_equiv. apply IH; [done|].
    apply elem_of_cons in Hid as [->|Hid]; [done|done].
Qed.

(** X16. Ticking a row's checkbox flips the membership of that id in the
    selection and of no other id; a selection without repetitions stays
    without repetitions; ticking twice gives back the same selection when
    the id was not selected, and when it was selected gives the other ids
    in their order followed by the id once -- every occurrence of the id is
    removed and a single one is put at the end -- which for a selection
    without repetitions is a permutation of it. *)
Theorem toggleSelect_flips_one_id (selectedIds : list string) (id : string) :
  (∀ i, i ∈ toggleSelect selectedIds id ↔
        (i ≠ id ∧ i ∈ selectedIds) ∨ (i = id ∧ id ∉ selectedIds))
  ∧ (NoDup selectedIds → NoDup (toggleSelect selectedIds id))
  ∧ (id ∉ selectedIds → toggleSelect (toggleSelect selectedIds id) id = selectedIds)
  ∧ (id ∈ selectedIds →
     toggleSelect (toggleSelect selectedIds id) id
     = (filter (λ i, i ≠ id) selectedIds ++ [id])%list)
  ∧ (NoDup selectedIds → toggleSelect (toggleSelect selectedIds id) id ≡ₚ selectedIds).
Proof.
  assert (Hmem : ∀ i, i ∈ toggleSelect selectedIds id ↔
                      (i ≠ id ∧ i ∈ selectedIds) ∨ (i = id ∧ id ∉ selectedIds)).
  { intros i. unfold toggleSelect.
    destruct (decide (id ∈ selectedIds)) as [Hin|Hout].
    - rewrite list_elem_of_filter. tauto.
    - rewrite elem_of_app, list_elem_of_singleton.
      destruct (decide (i = id)) as [->|]; tauto. }
  assert (Habsent : id ∉ selectedIds →
                    toggleSelect (toggleSelect selectedIds id) id = selectedIds).
  { intros Hout. unfold toggleSelect at 2. rewrite decide_False by done.
    unfold toggleSelect. rewrite decide_True by (apply elem_of_app; right; left).
    rewrite filter_app, filter_ne_absent by done.
    rewrite filter_cons, decide_False by tauto. simpl. by rewrite app_nil_r. }
  assert (Hpresent : id ∈ selectedIds →
                     toggleSelect (toggleSelect selectedIds id) id
                     = (filter (λ i, i ≠ id) selectedIds ++ [id])%list).
  { intros Hin. unfold toggleSelect at 2. rewrite decide_True by done.
    unfold toggleSelect. rewrite decide_False; [done|].
    rewrite list_elem_of_filter. tauto. }
  split; [exact Hmem|]. split; [|split; [exact Habsent|split; [exact Hpresent|]]].
  - intros Hnd. unfold toggleSelect.
    destruct (decide (id ∈ selectedIds)) as [Hin|Hout].
    + by apply NoDup_filter.
    + apply NoDup_app. split; [done|]. split; [|apply NoDup_singleton].
      intros x Hx Hx'. apply list_elem_of_singleton in Hx'. by subst x.
  - intros Hnd. destruct (decide (id ∈ selectedIds)) as [Hin|Hout].
    + rewrite Hpresent by done. by apply filter_ne_present.
    + by rewrite Habsent.
Qed.

Lemma toggleSelect_flips_one_id_witness :
  "INC-001" ∈ ["INC-001"; "INC-001"; "INC-002"]
  ∧ toggleSelect (toggleSelect ["INC-001"; "INC-001"; "INC-002"] "INC-001") "INC-001"
    = (filter (λ i, i ≠ "INC-001") ["INC-001"; "INC-001"; "INC-002"] ++ ["INC-001"])%list.
Proof.
  assert (H : "INC-001" ∈ ["INC-001"; "INC-001"; "INC-002"]) by left.
  split; [exact H|].
  exact (proj1 (proj2 (proj2 (proj2
    (toggleSelect_flips_one_id ["INC-001"; "INC-001"; "INC-002"] "INC-001")))) H).
Defined.

(** With a repeated id the second tick does not give back the selection:
    both occurrences are gone and one is put at the end. *)
Example toggleSelect_twice_with_repetition :
  toggleSelect (toggleSelect ["INC-001"; "INC-001"; "INC-002"] "INC-001") "INC-001"
  = ["INC-002"; "INC-001"].
Proof. reflexivity. Qed.

(** X17. The header checkbox of a table with at least one row flips when
    it is clicked: unchecked, the click selects the ids of all incidents,
    in the order of the [incidents] prop -- the ids of the rendered rows,
    which are the ranked copy, up to their order -- and the box is
    checked; checked, the click empties the selection.  The box looks at
    the number of selected ids only.  With no rows the click always gives
    the empty selection. *)
Theorem toggleSelectAll_flips_header
    (incidents : list Incident.t) (selectedIds : list string) :
  incidents ≠ [] →
  headerChecked incidents (toggleSelectAll incidents selectedIds)
  = negb (headerChecked incidents selectedIds)
  ∧ (headerChecked incidents selectedIds = false →
     toggleSelectAll incidents selectedIds = Incident.id <$> incidents
     ∧ toggleSelectAll incidents selectedIds
       ≡ₚ Incident.id <$> arraySort compareIncidents incidents)
  ∧ (headerChecked incidents selectedIds = true →
     toggleSelectAll incidents selectedIds = [])
  ∧ (headerChecked incidents selectedIds = true ↔
     length selectedIds = length incidents)
  ∧ toggleSelectAll [] selectedIds = [].
Proof.
  intros Hne.
  assert (Hpos : (0 < length incidents)%nat) by (destruct incidents; [done|simpl; lia]).
  assert (Hrows : Incident.id <$> incidents
                  ≡ₚ Incident.id <$> arraySort compareIncidents incidents)
    by (by rewrite arraySort_perm).
  unfold headerChecked, toggleSelectAll.
  rewrite (bool_decide_eq_true_2 _ Hpos), !andb_true_r.
  destruct (decide (length selectedIds = length incidents)) as [e|n].
  - rewrite (bool_decide_eq_true_2 _ e). simpl.
    rewrite bool_decide_eq_false_2 by lia.
    repeat split; try done. by destruct (decide (length selectedIds = 0%nat)).
  - rewrite (bool_decide_eq_false_2 _ n). simpl.
    rewrite bool_decide_eq_true_2 by (by rewrite length_fmap).
    repeat split; try done. by destruct (decide (length selectedIds = 0%nat)).
Qed.

(** The selection is in the order of the prop, the rows are in ranked
    order. *)
Example toggleSelectAll_prop_order :
  toggleSelectAll scenario4 [] = ["INC-H"; "INC-C"; "INC-M"]
  ∧ Incident.id <$> arraySort compareIncidents scenario4 = ["INC-C"; "INC-H"; "INC-M"].
Proof. split; reflexivity. Qed.

Lemma toggleSelectAll_flips_header_witness :
  incidents unverifiedCD ≠ []
  ∧ headerChecked (incidents unverifiedCD)
      (toggleSelectAll (incidents unverifiedCD) ["INC-003"]) = true.
Proof.
  assert (H : incidents unverifiedCD ≠ []) by discriminate.
  split; [exact H|].
  exact (proj1 (toggleSelectAll_flips_header (incidents unverifiedCD) ["INC-003"] H)).
Defined.

(** ** The panel's Verify action *)

(** X15. The panel's Verify action acts on an UNVERIFIED incident only:
    when the incident shown is in a collection with unique ids, verifying
    leaves every other incident unchanged and turns the incident shown,
    when it is UNVERIFIED, into a VERIFIED incident stamped with the
    current time; for an incident that is not UNVERIFIED there is no
    button, and nothing changes and nothing is logged. *)
Theorem panelVerify_only_unverified (st : State) (now : Date) (incident : Incident.t) :
  incident ∈ incidents st →
  NoDup (Incident.id <$> incidents st) →
  Forall2 (λ inc inc',
       (inc ≠ incident → inc' = inc)
       ∧ (Incident.status incident ≠ UNVERIFIED → inc' = inc)
       ∧ (inc = incident → Incident.status incident = UNVERIFIED →
          Incident.id inc' = Incident.id inc
          ∧ Incident.status inc' = VERIFIED
          ∧ Incident.verifiedAt inc' = Some now))
    (incidents st) (incidents (after (panelVerify incident) now st))
  ∧ (Incident.status incident ≠ UNVERIFIED → after (panelVerify incident) now st = st).
Proof.
  intros Hin Hnd. unfold panelVerify, after.
  destruct (decide (Incident.status incident = UNVERIFIED)) as [Hu|Hu].
  - split; [|done]. rewrite verifyIncident_eq. simpl.
    apply Forall2_fmap_r, Forall_Forall2_diag, Forall_forall.
    intros inc Hinc. unfold compose, onId.
    destruct (decide (Incident.id inc = Incident.id incident)) as [e|n].
    + assert (inc = incident) as ->.
      { apply list_elem_of_lookup in Hinc as [i Hi], Hin as [j Hj].
        assert (i = j) as ->.
        { eapply NoDup_lookup; [exact Hnd| |];
            rewrite list_lookup_fmap; [by rewrite Hi|rewrite Hj; simpl; congruence]. }
        congruence. }
      done.
    + split; [done|]. split; [done|]. by intros ->.
  - split; [|done]. simpl. by apply Forall2_diag.
Qed.

Lemma unique_ids_CD : NoDup (Incident.id <$> incidents unverifiedCD).
Proof.
  apply NoDup_cons. split; [|apply NoDup_singleton].
  intros Hin. apply list_elem_of_singleton in Hin. discriminate.
Defined.

Lemma panelVerify_only_unverified_witness :
  incidentC ∈ incidents unverifiedCD
  ∧ NoDup (Incident.id <$> incidents unverifiedCD)
  ∧ Forall2 (λ inc inc',
         (inc ≠ incidentC → inc' = inc)
         ∧ (Incident.status incidentC ≠ UNVERIFIED → inc' = inc)
         ∧ (inc = incidentC → Incident.status incidentC = UNVERIFIED →
            Incident.id inc' = Incident.id inc
            ∧ Incident.status inc' = VERIFIED
            ∧ Incident.verifiedAt inc' = Some 2000))
      (incidents unverifiedCD) (incidents (after (panelVerify incidentC) 2000 unverifiedCD)).
Proof.
  assert (H : incidentC ∈ incidents unverifiedCD) by (simpl; left).
  split; [exact H|]. split; [exact unique_ids_CD|].
  exact (proj1 (panelVerify_only_unverified unverifiedCD 2000 incidentC H unique_ids_CD)).
Defined.

(** ** The critical alert banner *)

Lemma filter_nil_Forall {A} (P : A → Prop) `{!∀ x, Decision (P x)} (l : list A) :
  filter P l = [] ↔ Forall (λ x, ¬ P x) l.
Proof.
  induction l as [|x l IH]; [by split|].
  rewrite filter_cons, Forall_cons. destruct (decide (P x)); [|tauto].
  split; [done|tauto].
Qed.

(** X18. The banner shows at most two alerts; every alert shown is an
    incident of the collection that is CRITICAL, neither RESOLVED nor
    FALSE, and not dismissed (a DUPLICATE or UNVERIFIED critical incident
    qualifies); the alerts come in the order of the collection; and the
    banner is empty exactly when no incident qualifies. *)
Theorem bannerAlerts_sound (incidents : list Incident.t) (dismissed : list string) :
  (length (bannerAlerts incidents dismissed) ≤ 2)%nat
  ∧ (∀ a, a ∈ bannerAlerts incidents dismissed →
       a ∈ incidents
       ∧ Incident.severity a = CRITICAL
       ∧ Incident.status a ≠ RESOLVED
       ∧ Incident.status a ≠ FALSE
       ∧ Incident.id a ∉ dismissed)
  ∧ bannerAlerts incidents dismissed `sublist_of` incidents
  ∧ (bannerAlerts incidents dismissed = [] ↔
     ∀ inc, inc ∈ incidents →
       ¬ (Incident.severity inc = CRITICAL
          ∧ Incident.status inc ≠ RESOLVED
          ∧ Incident.status inc ≠ FALSE
          ∧ Incident.id inc ∉ dismissed)).
Proof.
  unfold bannerAlerts. split; [apply firstn_le_length|]. split; [|split].
  - intros a Ha. apply elem_of_take in Ha as (i & Hi & _).
    apply list_elem_of_lookup_2 in Hi. unfold criticalIncidents in Hi.
    apply list_elem_of_filter in Hi. tauto.
  - etransitivity; [apply sublist_take|apply sublist_filter].
  - split.
    + intros Hnil inc Hin Hq.
      assert (Hall : criticalIncidents incidents dismissed = [])
        by (destruct (criticalIncidents incidents dismissed) as [|? [|? ?]]; done).
      apply filter_nil_Forall in Hall. rewrite Forall_forall in Hall.
      by apply (Hall inc Hin).
    + intros Hall.
      assert (Hnil : criticalIncidents incidents dismissed = []).
      { apply filter_nil_Forall, Forall_forall. exact Hall. }
      by rewrite Hnil.
Qed.

(** X19. Dismissing an alert hides every alert with that incident's id
    and nothing else: the qualifying incidents afterwards are the earlier
    ones without that id, in the same order, so the next critical incident
    moves up; and since ids are only ever added to the dismissed list, a
    dismissed alert does not come back. *)
Theorem dismissAlert_hides_that_id
    (incidents : list Incident.t) (dismissed : list string) (incident : Incident.t) :
  criticalIncidents incidents (dismissAlert dismissed incident)
  = filter (λ i, Incident.id i ≠ Incident.id incident)
      (criticalIncidents incidents dismissed)
  ∧ (∀ a, a ∈ bannerAlerts incidents (dismissAlert dismissed incident) →
       Incident.id a ≠ Incident.id incident ∧ Incident.id a ∉ dismissed)
  ∧ (∀ id, id ∈ dismissed → id ∈ dismissAlert dismissed incident).
Proof.
  assert (Heq : criticalIncidents incidents (dismissAlert dismissed incident)
                = filter (λ i, Incident.id i ≠ Incident.id incident)
                    (criticalIncidents incidents dismissed)).
  { unfold criticalIncidents, dismissAlert. rewrite list_filter_filter.
    apply list_filter_iff. intros inc.
    rewrite not_elem_of_app, list_elem_of_singleton. tauto. }
  split; [exact Heq|]. split.
  - intros a Ha. unfold bannerAlerts in Ha. apply elem_of_take in Ha as (i & Hi & _).
    apply list_elem_of_lookup_2 in Hi. rewrite Heq in Hi.
    apply list_elem_of_filter in Hi as [Hne Hi].
    unfold criticalIncidents in Hi. apply list_elem_of_filter in Hi. tauto.
  - intros id Hid. unfold dismissAlert. apply elem_of_app. by left.
Qed.

Lemma criticalIncidents_discard id f dismissed (l : list Incident.t) :
  (∀ inc, Incident.status (f inc) = RESOLVED ∨ Incident.status (f inc) = FALSE) →
  criticalIncidents (onId id f <$> l) dismissed
  = filter (λ i, Incident.id i ≠ id) (criticalIncidents l dismissed).
Proof.
  intros Hf. unfold criticalIncidents. rewrite list_filter_filter.
  induction l as [|x l IH]; [done|].
  rewrite fmap_cons, !filter_cons, IH.
  destruct (decide (Incident.id x = id)) as [e|n].
  - assert (onId id f x = f x) as -> by (unfold onId; by rewrite decide_True).
    rewrite decide_False by (destruct (Hf x); tauto).
    rewrite decide_False by tauto. done.
  - assert (onId id f x = x) as -> by (unfold onId; by rewrite decide_False).
    destruct (decide (Incident.severity x = CRITICAL ∧ Incident.status x ≠ RESOLVED
                      ∧ Incident.status x ≠ FALSE ∧ Incident.id x ∉ dismissed)).
    + rewrite decide_True by tauto. done.
    + rewrite decide_False by tauto. done.
Qed.

(** X20. Resolving an incident or marking it as a false report takes it
    out of the banner and leaves the other alerts in place: after
    updateIncidentStatus(id, RESOLVED) or markAsFalse(id, reason) the
    qualifying incidents are the earlier ones without that id. *)
Theorem closed_incident_leaves_banner
    (st : State) (now : Date) (id reason : string) (dismissed : list string) :
  criticalIncidents (incidents (after (updateIncidentStatus id RESOLVED) now st)) dismissed
  = filter (λ i, Incident.id i ≠ id) (criticalIncidents (incidents st) dismissed)
  ∧ criticalIncidents (incidents (after (markAsFalse id reason) now st)) dismissed
    = filter (λ i, Incident.id i ≠ id) (criticalIncidents (incidents st) dismissed).
Proof.
  unfold after. rewrite updateIncidentStatus_eq, markAsFalse_eq. simpl.
  split; apply criticalIncidents_discard; intros inc; simpl; tauto.
Qed.

(** ** More on the ranking *)

Lemma arraySort_fixes_sorted {A} (comparefn : A → A → Z) (l : list A) :
  StronglySorted (notAfter comparefn) l → arraySort comparefn l = l.
Proof.
  induction 1 as [|x l _ IH Hx]; [done|]. simpl. rewrite IH.
  destruct l as [|y l]; [done|]. simpl.
  apply Forall_cons in Hx as [Hxy _]. by rewrite decide_True.
Qed.

Lemma arraySort_compare_sorted (l : list Incident.t) :
  StronglySorted (notAfter compareIncidents) (arraySort compareIncidents l).
Proof.
  apply arraySort_sorted.
  - intros a b Hab. apply compareIncidents_ranksBefore, ranksBefore_total.
    by rewrite <- compareIncidents_ranksBefore.
  - intros a b c. unfold notAfter. rewrite !compareIncidents_ranksBefore.
    apply ranksBefore_trans.
Qed.

(** X21. Ranking is idempotent, and more generally leaves alone what is
    already ranked: sorting the sorted list again gives the same list, and
    a list in which every element ranks before all later ones is returned
    unchanged. *)
Theorem ranking_fixes_ranked_lists (l : list Incident.t) :
  arraySort compareIncidents (arraySort compareIncidents l)
  = arraySort compareIncidents l
  ∧ (StronglySorted ranksBefore l → arraySort compareIncidents l = l).
Proof.
  split.
  - apply arraySort_fixes_sorted, arraySort_compare_sorted.
  - intros Hl. apply arraySort_fixes_sorted.
    eapply StronglySorted_weaken; [|exact Hl].
    intros a b. apply compareIncidents_ranksBefore.
Qed.

Lemma ranking_fixes_ranked_lists_witness :
  StronglySorted ranksBefore (arraySort compareIncidents scenario4)
  ∧ arraySort compareIncidents (arraySort compareIncidents scenario4)
    = arraySort compareIncidents scenario4.
Proof.
  split; [apply arraySort_ranked|].
  exact (proj2 (ranking_fixes_ranked_lists (arraySort compareIncidents scenario4))
           (arraySort_ranked scenario4)).
Defined.

Lemma insertSorted_fmap {A} (comparefn : A → A → Z) (f : A → A) x (l : list A) :
  (∀ a b, comparefn (f a) (f b) = comparefn a b) →
  insertSorted comparefn (f x) (f <$> l) = f <$> insertSorted comparefn x l.
Proof.
  intros Hf. induction l as [|y l IH]; [done|].
  rewrite fmap_cons. simpl. rewrite Hf.
  destruct (decide (comparefn x y ≤ 0)%Z); [done|].
  by rewrite IH.
Qed.

Lemma arraySort_fmap {A} (comparefn : A → A → Z) (f : A → A) (l : list A) :
  (∀ a b, comparefn (f a) (f b) = comparefn a b) →
  arraySort comparefn (f <$> l) = f <$> arraySort comparefn l.
Proof.
  intros Hf. induction l as [|x l IH]; [done|].
  rewrite fmap_cons. simpl. rewrite IH. by apply insertSorted_fmap.
Qed.

Lemma compareIncidents_ext a a' b b' :
  Incident.severity a' = Incident.severity a → Incident.priority a' = Incident.priority a →
  Incident.upvotes a' = Incident.upvotes a → Incident.createdAt a' = Incident.createdAt a →
  Incident.severity b' = Incident.severity b → Incident.priority b' = Incident.priority b →
  Incident.upvotes b' = Incident.upvotes b → Incident.createdAt b' = Incident.createdAt b →
  compareIncidents a' b' = compareIncidents a b.
Proof. unfold compareIncidents. by intros -> -> -> -> -> -> -> ->. Qed.

Lemma ranking_of_edit id f (l : list Incident.t) :
  (∀ inc, Incident.id (f inc) = Incident.id inc
          ∧ Incident.severity (f inc) = Incident.severity inc
          ∧ Incident.priority (f inc) = Incident.priority inc
          ∧ Incident.upvotes (f inc) = Incident.upvotes inc
          ∧ Incident.createdAt (f inc) = Incident.createdAt inc) →
  Incident.id <$> arraySort compareIncidents (onId id f <$> l)
  = Incident.id <$> arraySort compareIncidents l.
Proof.
  intros Hf.
  assert (Hon : ∀ inc, Incident.id (onId id f inc) = Incident.id inc
                       ∧ Incident.severity (onId id f inc) = Incident.severity inc
                       ∧ Incident.priority (onId id f inc) = Incident.priority inc
                       ∧ Incident.upvotes (onId id f inc) = Incident.upvotes inc
                       ∧ Incident.createdAt (onId id f inc) = Incident.createdAt inc).
  { intros inc. unfold onId. destruct (decide (Incident.id inc = id)); [apply Hf|done]. }
  rewrite arraySort_fmap.
  - rewrite <- list_fmap_compose. apply list_fmap_ext. intros _ inc _. apply Hon.
  - intros a b. apply compareIncidents_ext; apply Hon.
Qed.

(** X22. The order of the table's rows does not depend on status: after
    a status change, a verification, a false-report or duplicate marking,
    a note, a notification read or the live-updates switch, the ranked
    incidents have their ids in the same order as before. *)
Theorem status_changes_keep_row_order
    (mockIncidents : list Incident.t) (mockActivityLogs : list ActivityLog.t)
    (c : Command) (now : Date) (st : State) :
  rankNeutral c →
  Incident.id <$> arraySort compareIncidents
                    (incidents (after (run mockIncidents mockActivityLogs c) now st))
  = Incident.id <$> arraySort compareIncidents (incidents st).
Proof.
  intros Hc. unfold after.
  destruct c; try done; simpl run;
    rewrite ?updateIncidentStatus_eq, ?verifyIncident_eq, ?markAsFalse_eq,
      ?markAsDuplicate_eq; simpl;
    by apply ranking_of_edit.
Qed.

Lemma status_changes_keep_row_order_witness :
  rankNeutral (MarkAsFalse "INC-C" "prank call")
  ∧ Incident.id <$> arraySort compareIncidents
                      (incidents (after (run [] [] (MarkAsFalse "INC-C" "prank call")) 3000
                                    (collection scenario4)))
    = Incident.id <$> arraySort compareIncidents (incidents (collection scenario4)).
Proof.
  split; [exact I|].
  exact (status_changes_keep_row_order [] [] (MarkAsFalse "INC-C" "prank call") 3000
           (collection scenario4) I).
Defined.

(** ** Authentication *)

(** X23. login accepts exactly two pairs of credentials, compared as
    they are typed: the admin pair signs in the mock user; the responder
    pair signs in a user with id 'responder-001' and role RESPONDER; any
    other input fails with the message 'Invalid credentials or
    insufficient permissions' and leaves whoever was signed in signed in.
    In every case the loading flag is off at the end. *)
Theorem login_accepts_two_accounts
    (mockUser : User.t) (email password : string) (st : Auth.t) :
  Auth.isLoading (Auth.login mockUser email password st).2 = false
  ∧ (Auth.success (Auth.login mockUser email password st).1 = true ↔
     (email = "admin@emergency.gov" ∧ password = "admin123")
     ∨ (email = "responder@emergency.gov" ∧ password = "responder123"))
  ∧ (email = "admin@emergency.gov" → password = "admin123" →
     Auth.user (Auth.login mockUser email password st).2 = Some mockUser)
  ∧ (email = "responder@emergency.gov" → password = "responder123" →
     ∃ u, Auth.user (Auth.login mockUser email password st).2 = Some u
          ∧ User.id u = "responder-001"
          ∧ User.role u = RESPONDER
          ∧ User.email u = email)
  ∧ (Auth.success (Auth.login mockUser email password st).1 = false →
     Auth.user (Auth.login mockUser email password st).2 = Auth.user st
     ∧ Auth.error (Auth.login mockUser email password st).1
       = Some "Invalid credentials or insufficient permissions").
Proof.
  unfold Auth.login.
  destruct (decide (email = "admin@emergency.gov" ∧ password = "admin123"))
    as [[-> ->]|Ha]; simpl.
  { split; [done|]. split; [by split; [left|]|]. split; [done|]. split; [|done].
    intros [=]. }
  destruct (decide (email = "responder@emergency.gov" ∧ password = "responder123"))
    as [[-> ->]|Hr]; simpl.
  { split; [done|]. split; [by split; [right|]|]. split; [done|]. split; [|done].
    intros _ _. by eexists. }
  split; [done|]. split; [split; [done|tauto]|]. split; [tauto|]. split; [tauto|done].
Qed.

Lemma login_accepts_two_accounts_witness :
  ∃ u, Auth.user (Auth.login (User.mk "admin-001" "John Commander" "admin@emergency.gov" ADMIN)
                    "responder@emergency.gov" "responder123" (Auth.mk None false)).2
       = Some u
       ∧ User.role u = RESPONDER.
Proof.
  destruct (proj1 (proj2 (proj2 (proj2
    (login_accepts_two_accounts
       (User.mk "admin-001" "John Commander" "admin@emergency.gov" ADMIN)
       "responder@emergency.gov" "responder123" (Auth.mk None false)))))
    eq_refl eq_refl) as (u & Hu & _ & Hrole & _).
  exists u. split; [exact Hu|exact Hrole].
Defined.

(** X24. hasRole needs a signed-in user: it is false for every list of
    roles when nobody is signed in, in particular after logout, and false
    for the empty list; with a user signed in it is true exactly when the
    user's role is in the list, so the responder account has RESPONDER and
    does not have ADMIN. *)
Theorem hasRole_needs_user
    (mockUser : User.t) (st : Auth.t) (roles : list UserRole) :
  Auth.hasRole (Auth.logout st) roles = false
  ∧ Auth.isAuthenticated (Auth.logout st) = false
  ∧ Auth.hasRole st [] = false
  ∧ (∀ u, Auth.user st = Some u →
       (Auth.hasRole st roles = true ↔ User.role u ∈ roles))
  ∧ Auth.hasRole
      (Auth.login mockUser "responder@emergency.gov" "responder123" st).2 [ADMIN]
    = false
  ∧ Auth.hasRole
      (Auth.login mockUser "responder@emergency.gov" "responder123" st).2 [RESPONDER]
    = true.
Proof.
  split; [done|]. split; [done|]. split; [|split].
  - unfold Auth.hasRole. destruct (Auth.user st); [|done].
    apply bool_decide_eq_false. apply not_elem_of_nil.
  - intros u Hu. unfold Auth.hasRole. rewrite Hu. apply bool_decide_eq_true.
  - done.
Qed.

Lemma hasRole_needs_user_witness :
  Auth.user (Auth.mk (Some (User.mk "admin-001" "John Commander" "admin@emergency.gov" ADMIN))
               false)
  = Some (User.mk "admin-001" "John Commander" "admin@emergency.gov" ADMIN)
  ∧ (Auth.hasRole
       (Auth.mk (Some (User.mk "admin-001" "John Commander" "admin@emergency.gov" ADMIN))
          false) [ADMIN; RESPONDER] = true
     ↔ ADMIN ∈ [ADMIN; RESPONDER]).
Proof.
  split; [reflexivity|].
  exact (proj1 (proj2 (proj2 (proj2
    (hasRole_needs_user (User.mk "admin-001" "John Commander" "admin@emergency.gov" ADMIN)
       (Auth.mk (Some (User.mk "admin-001" "John Commander" "admin@emergency.gov" ADMIN))
          false) [ADMIN; RESPONDER])))) _ eq_refl).
Defined.

(** X25. The login form navigates to the dashboard exactly when the
    credentials are one of the two accepted pairs, and nowhere else.  With
    an empty email or password it shows 'Please enter both email and
    password' without calling login; whenever it does not navigate it
    shows a non-empty error and the signed-in user is as before. *)
Theorem login_form_navigates_on_success
    (mockUser : User.t) (email password : string) (auth : Auth.t) :
  (LoginPage.navigatedTo (LoginPage.handleSubmit mockUser email password auth).1
   = Some "/dashboard" ↔
   (email = "admin@emergency.gov" ∧ password = "admin123")
   ∨ (email = "responder@emergency.gov" ∧ password = "responder123"))
  ∧ (LoginPage.navigatedTo (LoginPage.handleSubmit mockUser email password auth).1
     = Some "/dashboard"
     ∨ LoginPage.navigatedTo (LoginPage.handleSubmit mockUser email password auth).1
       = None)
  ∧ (email = "" ∨ password = "" →
     LoginPage.handleSubmit mockUser email password auth
     = (LoginPage.mk "Please enter both email and password" None, auth))
  ∧ (LoginPage.navigatedTo (LoginPage.handleSubmit mockUser email password auth).1
     = None →
     LoginPage.error (LoginPage.handleSubmit mockUser email password auth).1 ≠ ""
     ∧ Auth.user (LoginPage.handleSubmit mockUser email password auth).2
       = Auth.user auth).
Proof.
  unfold LoginPage.handleSubmit.
  destruct (decide (email = "" ∨ password = "")) as [Hempty|Hfull].
  { simpl. split; [|split; [by right|split; [done|done]]].
    split; [done|]. intros [[-> ->]|[-> ->]]; destruct Hempty; discriminate. }
  unfold Auth.login.
  destruct (decide (email = "admin@emergency.gov" ∧ password = "admin123"))
    as [[-> ->]|Ha]; simpl.
  { split; [by split; [left|]|]. split; [by left|]. split; [tauto|]. intros [=]. }
  destruct (decide (email = "responder@emergency.gov" ∧ password = "responder123"))
    as [[-> ->]|Hr]; simpl.
  { split; [by split; [right|]|]. split; [by left|]. split; [tauto|]. intros [=]. }
  split; [split; [done|tauto]|]. split; [by right|]. split; [tauto|done].
Qed.

Lemma login_form_navigates_on_success_witness :
  LoginPage.handleSubmit (User.mk "admin-001" "John Commander" "admin@emergency.gov" ADMIN)
    "admin@emergency.gov" "" (Auth.mk None false)
  = (LoginPage.mk "Please enter both email and password" None, Auth.mk None false).
Proof.
  apply (proj1 (proj2 (proj2 (login_form_navigates_on_success
    (User.mk "admin-001" "John Commander" "admin@emergency.gov" ADMIN)
    "admin@emergency.gov" "" (Auth.mk None false))))).
  right. reflexivity.
Defined.

(** ** Refresh *)

(** A refresh throws away every edit of the session and keeps the
    rest: the incidents and the activity log afterwards are the mock
    collections whatever the state was, while the notes, the
    notifications, the aggregates and the live-updates flag are kept --
    so a note can outlive the log entry of its creation.  Refreshing
    twice is refreshing once. *)
Theorem refreshData_forgets_edits
    (mockIncidents : list Incident.t) (mockActivityLogs : list ActivityLog.t)
    (now now' : Date) (st : State) :
  outcome (refreshData mockIncidents mockActivityLogs) now st = Returns ()
  ∧ incidents (after (refreshData mockIncidents mockActivityLogs) now st) = mockIncidents
  ∧ activityLogs (after (refreshData mockIncidents mockActivityLogs) now st)
    = mockActivityLogs
  ∧ adminNotes (after (refreshData mockIncidents mockActivityLogs) now st) = adminNotes st
  ∧ notifications (after (refreshData mockIncidents mockActivityLogs) now st)
    = notifications st
  ∧ dashboardStats (after (refreshData mockIncidents mockActivityLogs) now st)
    = dashboardStats st
  ∧ isLiveUpdates (after (refreshData mockIncidents mockActivityLogs) now st)
    = isLiveUpdates st
  ∧ after (refreshData mockIncidents mockActivityLogs) now'
      (after (refreshData mockIncidents mockActivityLogs) now st)
    = after (refreshData mockIncidents mockActivityLogs) now st.
Proof. by repeat split. Qed.

(** A note added before a refresh is still there after it; its log entry
    is not. *)
Example note_outlives_its_log_entry :
  (λ st, (length (adminNotes st), length (activityLogs st)))
    (after (refreshData [incidentC] []) 5000
       (after (addAdminNote "INC-003" "called the owner") 4000 (collection [incidentC])))
  = (1%nat, 0%nat).
Proof. reflexivity. Qed.

(** ** Marking a duplicate through the dialog *)

(** X14. Marking a duplicate through the dialog gives a duplicate that
    resolves: when the original is one of the incidents the dialog lists
    for the incident shown and its id is not the empty string, then after
    Confirm every incident with the shown incident's id is DUPLICATE with
    [duplicateOf] the original's id, and that resolves in the new
    collection to a distinct, existing incident that is neither DUPLICATE
    nor FALSE.  With nothing picked (the empty id) Confirm is disabled and
    nothing changes. *)
Theorem confirmMarkDuplicate_resolves
    (st : State) (now : Date) (incident orig : Incident.t) :
  (orig ∈ duplicateOptions (incidents st) incident →
   Incident.id orig ≠ "" →
   ∀ inc', inc' ∈ incidents (after (confirmMarkDuplicate incident (Incident.id orig)) now st) →
     Incident.id inc' = Incident.id incident →
     Incident.status inc' = DUPLICATE
     ∧ Incident.duplicateOf inc' = Some (Incident.id orig)
     ∧ duplicate_resolves
         (incidents (after (confirmMarkDuplicate incident (Incident.id orig)) now st))
         inc')
  ∧ confirmMarkDuplicate incident "" now st = (Returns (), st).
Proof.
  split; [|done].
  intros Horig Hne inc' Hin' Hid'.
  apply list_elem_of_filter in Horig as ((Hdiff & Hnd & Hnf) & Horig).
  unfold confirmMarkDuplicate, after in *. rewrite decide_False in * by done.
  rewrite markAsDuplicate_eq in *. simpl in *.
  apply list_elem_of_fmap in Hin' as (inc & -> & Hin).
  assert (Hinc : Incident.id inc = Incident.id incident).
  { revert Hid'. unfold onId. by destruct (decide (Incident.id inc = Incident.id incident)). }
  match goal with |- context [onId ?i ?f inc] =>
    assert (Hon : onId i f inc = f inc) by (unfold onId; by rewrite decide_True);
    assert (Horig' : onId i f orig = orig) by (unfold onId; by rewrite decide_False)
  end.
  rewrite Hon. simpl. split; [done|]. split; [done|].
  exists (Incident.id orig), orig. simpl.
  split; [done|]. split; [congruence|]. split; [|done].
  apply list_elem_of_fmap. exists orig. by split.
Qed.

Lemma confirmMarkDuplicate_resolves_witness :
  incidentD ∈ duplicateOptions (incidents unverifiedCD) incidentC
  ∧ Incident.id incidentD ≠ ""
  ∧ ∀ inc', inc' ∈ incidents (after (confirmMarkDuplicate incidentC (Incident.id incidentD))
                                2000 unverifiedCD) →
      Incident.id inc' = Incident.id incidentC →
      Incident.status inc' = DUPLICATE.
Proof.
  assert (H : incidentD ∈ duplicateOptions (incidents unverifiedCD) incidentC).
  { unfold duplicateOptions. apply list_elem_of_filter. split.
    - split; [discriminate|]. split; discriminate.
    - simpl. right. left. }
  assert (Hne : Incident.id incidentD ≠ "") by discriminate.
  split; [exact H|]. split; [exact Hne|].
  intros inc' Hin Hid.
  exact (proj1 (proj1 (confirmMarkDuplicate_resolves unverifiedCD 2000 incidentC incidentD)
                  H Hne inc' Hin Hid)).
Defined.

(** ** Which command writes which field *)

Lemma command_Forall2_tick (P : Incident.t → Incident.t → Prop)
    mockIncidents mockActivityLogs c now st :
  (∀ inc, P inc inc) →
  (∀ draws, c = LiveTick draws →
     Forall2 P (incidents st) (incidents (after (liveTick draws) now st))) →
  (∀ id status inc, c = UpdateIncidentStatus id status →
     P inc (Incident.set_updatedAt now (Incident.set_status status inc))) →
  (∀ id severity inc, c = UpdateIncidentSeverity id severity →
     P inc (Incident.set_updatedAt now (Incident.set_severity severity inc))) →
  (∀ id inc, c = VerifyIncident id →
     P inc (Incident.set_updatedAt now
              (Incident.set_verifiedBy "admin-001"
                 (Incident.set_verifiedAt now
                    (Incident.set_status VERIFIED inc))))) →
  (∀ id reason inc, c = MarkAsFalse id reason →
     P inc (Incident.set_updatedAt now (Incident.set_status FALSE inc))) →
  (∀ id o inc, c = MarkAsDuplicate id o →
     P inc (Incident.set_updatedAt now
              (Incident.set_duplicateOf o
                 (Incident.set_status DUPLICATE inc)))) →
  c ≠ RefreshData →
  Forall2 P (incidents st) (incidents (after (run mockIncidents mockActivityLogs c) now st)).
Proof.
  intros Hrefl Htick Hst Hsev Hver Hfalse Hdup Hc. unfold after.
  destruct c as [id status|id severity|id|id reason|id originalId|nid content| |nid| |draws];
    simpl run.
  - rewrite updateIncidentStatus_eq. apply edit_Forall2; eauto.
  - rewrite updateIncidentSeverity_eq. apply edit_Forall2; eauto.
  - rewrite verifyIncident_eq. apply edit_Forall2; eauto.
  - rewrite markAsFalse_eq. apply edit_Forall2; eauto.
  - rewrite markAsDuplicate_eq. apply edit_Forall2; eauto.
  - by apply Forall2_diag.
  - by apply Forall2_diag.
  - by apply Forall2_diag.
  - done.
  - by apply Htick.
Qed.

(** X10. Each mutable field has its writers.  Apart from a refresh: the
    status of an incident changes only through updateIncidentStatus,
    verifyIncident, markAsFalse and markAsDuplicate; the severity only
    through updateIncidentSeverity; the upvotes only through the timer,
    and no command ever lowers them. *)
Theorem fields_have_their_writers
    (mockIncidents : list Incident.t) (mockActivityLogs : list ActivityLog.t)
    (c : Command) (now : Date) (st : State) :
  c ≠ RefreshData →
  Forall2 (λ inc inc', (Incident.upvotes inc ≤ Incident.upvotes inc')%Z)
    (incidents st) (incidents (after (run mockIncidents mockActivityLogs c) now st))
  ∧ ((∀ draws, c ≠ LiveTick draws) →
     Forall2 (λ inc inc', Incident.upvotes inc' = Incident.upvotes inc)
       (incidents st) (incidents (after (run mockIncidents mockActivityLogs c) now st)))
  ∧ ((∀ id severity, c ≠ UpdateIncidentSeverity id severity) →
     Forall2 (λ inc inc', Incident.severity inc' = Incident.severity inc)
       (incidents st) (incidents (after (run mockIncidents mockActivityLogs c) now st)))
  ∧ ((∀ id status, c ≠ UpdateIncidentStatus id status) →
     (∀ id, c ≠ VerifyIncident id) → (∀ id reason, c ≠ MarkAsFalse id reason) →
     (∀ id originalId, c ≠ MarkAsDuplicate id originalId) →
     Forall2 (λ inc inc', Incident.status inc' = Incident.status inc)
       (incidents st) (incidents (after (run mockIncidents mockActivityLogs c) now st))).
Proof.
  intros Hc.
  assert (Htick : ∀ draws,
             Forall2 (λ inc inc', (Incident.upvotes inc ≤ Incident.upvotes inc')%Z
                                  ∧ Incident.severity inc' = Incident.severity inc
                                  ∧ Incident.status inc' = Incident.status inc)
               (incidents st) (incidents (after (liveTick draws) now st))).
  { intros draws.
    destruct (liveTick_only_adds_upvotes draws now st) as (_ & H & _).
    eapply Forall2_impl; [exact H|]. intros inc inc' (Heq & Hup & _).
    split; [lia|]. rewrite Heq. done. }
  split; [|split; [|split]].
  - apply command_Forall2_tick; simpl; intros; try done; try lia.
    eapply Forall2_impl; [apply Htick|]. by intros ? ? (? & _).
  - intros Hn. apply command_Forall2_tick; simpl; intros; try done.
    by destruct (Hn draws).
  - intros Hn. destruct c; try (by destruct (Hn id severity));
      apply command_Forall2_tick; simpl; intros; try done.
    eapply Forall2_impl; [apply Htick|]. by intros ? ? (_ & ? & _).
  - intros H1 H2 H3 H4.
    destruct c; try (by destruct (H1 id status)); try (by destruct (H2 id));
      try (by destruct (H3 id reason)); try (by destruct (H4 id originalId));
      apply command_Forall2_tick; simpl; intros; try done.
    eapply Forall2_impl; [apply Htick|]. by intros ? ? (_ & _ & ?).
Qed.

Lemma fields_have_their_writers_witness :
  LiveTick [true; true; true] ≠ RefreshData
  ∧ Forall2 (λ inc inc', (Incident.upvotes inc ≤ Incident.upvotes inc')%Z)
      (incidents resolvedAndFalse)
      (incidents (after (run [] [] (LiveTick [true; true; true])) 5000 resolvedAndFalse)).
Proof.
  assert (H : LiveTick [true; true; true] ≠ RefreshData) by discriminate.
  split; [exact H|].
  exact (proj1 (fields_have_their_writers [] [] _ 5000 resolvedAndFalse H)).
Defined.
